(** * Gatepay SDK client: the façade and its composite [createLink]

    A shallow embedding of the enhanced client of the SDK
    (class [Gatepay]: constructor, [createLink], [updateApiToken],
    [updateBasePath], [getConfiguration]).

    JavaScript objects live in a heap of locations, because several
    properties are about which object a reference points to.  The remote
    service is a parameter: a record of endpoint functions over an abstract
    server state.  Every remote call made through a sub-client is recorded
    in a call log, the way a test double records its calls. *)

From stdpp Require Import base list strings gmap.
From Stdlib Require Import ZArith Sorted.

(** ** Values thrown by JavaScript code *)

(** What a [throw] can carry: an instance of [Error] (its message, the HTTP
    status the runtime's response errors carry, and the ES2022 [cause]
    option), or any other value. *)
#[warnings="-register-all"]
Inductive JsThrown : Type :=
| ErrorObject (message : string) (status : option Z) (cause : option JsThrown)
| NonError (repr : string).

(** [new Error(message)]: neither a status nor a cause. *)
Definition new_Error (message : string) : JsThrown :=
  ErrorObject message None None.

(** [error instanceof Error ? error.message : "Unknown error"] *)
Definition message_or_unknown (error : JsThrown) : string :=
  match error with
  | ErrorObject m _ _ => m
  | NonError _ => "Unknown error"
  end.

Definition thrown_status (error : JsThrown) : option Z :=
  match error with
  | ErrorObject _ s _ => s
  | NonError _ => None
  end.

(** [target] is [error] itself or is found by following [cause] links. *)
Fixpoint reachable_from (target error : JsThrown) : Prop :=
  target = error \/
  match error with
  | ErrorObject _ _ (Some c) => reachable_from target c
  | _ => False
  end.

(** Truthiness of an optional string: [undefined] and [""] are falsy. *)
Definition truthy (s : option string) : bool :=
  match s with
  | Some EmptyString => false
  | Some _ => true
  | None => false
  end.

(** [a || b] on an optional string with a string default. *)
Definition or_default (a : option string) (b : string) : string :=
  match a with
  | Some EmptyString => b
  | Some s => s
  | None => b
  end.

(** ** Data model *)

(** Modelled from the spec: the runtime's [Configuration] class is not part
    of the sources at hand; the spec gives it as the pair of a base address
    and a credential. *)
Record Configuration : Type := mkConfiguration {
  basePath : string;
  accessToken : string
}.

Record GatepayClientOptions : Type := mkClientOptions {
  apiToken : string;
  opt_basePath : option string
}.

Record PaymentRequirement : Type := mkRequirement {
  assetNetwork : string;
  assetAddress : string;
  amount : string;
  destinationAddress : string
}.

(** Modelled from the spec: the generated request models
    ([PostLinksByLinkUuidTollsRequest] and the like) are not part of the
    sources at hand; their fields follow the spec's data model and the
    calls of the examples. *)
Record Toll : Type := mkToll {
  tollPaymentRequirements : list PaymentRequirement
}.

Inductive ResourceType : Type :=
| redirect | html | file | link | proxy | tunnel.

Record Resource : Type := mkResource {
  resource_type : ResourceType;
  resource_url : option string;
  resource_html : option string;
  resource_description : option string
}.

Record Action : Type := mkAction {
  action_type : string;
  trigger : string;
  action_url : string;
  method : string
}.

(** Modelled from the spec: the generated [PostLinksRequest] model is not
    part of the sources at hand; the spec gives the plain link fields as
    name (required), alias, description, status and type. *)
Record PostLinksRequest : Type := mkPostLinksRequest {
  name : string;
  alias : option string;
  description : option string;
  status : option string;
  type : option string
}.

(** [interface CreateLinkOptions extends PostLinksRequest] *)
Record CreateLinkOptions : Type := mkCreateLinkOptions {
  plain :> PostLinksRequest;
  toll : option Toll;
  resource : option Resource;
  actions : option (list Action)
}.

(** Modelled from the spec: [PostLinks201Response], the Link as the server
    returns it; the generated model is not part of the sources at hand.
    The uuid is optional in the type: [createLink] tests it. *)
Record Link : Type := mkLink {
  uuid : option string;
  link_name : string;
  link_alias : option string;
  link_description : option string;
  link_status : option string;
  link_type : option string;
  url : option string
}.

(** ** The remote service *)

(** The request of one remote operation of the Links sub-client. *)
Inductive Request : Type :=
| PostLinks (postLinksRequest : CreateLinkOptions)
| PostLinksByLinkUuidTolls (linkUuid : string) (body : Toll)
| PostLinksByLinkUuidResources (linkUuid : string) (body : Resource)
| PostLinksByLinkUuidActions (linkUuid : string) (body : Action)
| GetLinksByUuidOrAlias (uuidOrAlias : string).

(** One entry of the call log: the Configuration the sub-client used, the
    request, and whether the call resolved or rejected. *)
Record Call : Type := mkCall {
  call_configuration : Configuration;
  call_request : Request;
  call_resolved : bool
}.

(** Modelled from the spec: the generated [LinksApi] operations are not part
    of the sources at hand; each is a typed request/response call that
    either resolves with a response or rejects with a thrown value, and may
    change the server's state [W].  An endpoint receives its request as a
    value: the generated client serialises it and never writes to it.
    [createLink] only uses the Link returned by creation and read-back;
    the other responses are never inspected. *)
Record Remote (W : Type) : Type := mkRemote {
  remote_postLinks :
    Configuration -> CreateLinkOptions -> W -> (JsThrown + Link) * W;
  remote_postTolls :
    Configuration -> string -> Toll -> W -> (JsThrown + unit) * W;
  remote_postResources :
    Configuration -> string -> Resource -> W -> (JsThrown + unit) * W;
  remote_postActions :
    Configuration -> string -> Action -> W -> (JsThrown + unit) * W;
  remote_getLink :
    Configuration -> string -> W -> (JsThrown + Link) * W
}.
Arguments remote_postLinks {W}.
Arguments remote_postTolls {W}.
Arguments remote_postResources {W}.
Arguments remote_postActions {W}.
Arguments remote_getLink {W}.

(** ** The heap *)

(** A location is an index into the heap. *)
Abbreviation loc := nat (only parsing).

(** The façade object: its four fields hold references. *)
Record Gatepay : Type := mkGatepay {
  configuration : loc;
  account : loc;
  links : loc;
  networks : loc
}.

Inductive Object : Type :=
| ObjConfiguration (c : Configuration)
| ObjAccountApi (cfg : loc)
| ObjLinksApi (cfg : loc)
| ObjNetworksApi (cfg : loc)
| ObjGatepay (g : Gatepay)
| ObjOptions (o : CreateLinkOptions).

(** [{...options, toll: undefined, resource: undefined, actions: undefined}]:
    the plain fields are copied, the three composite fields are
    [undefined]. *)
Definition stripped (o : CreateLinkOptions) : CreateLinkOptions :=
  mkCreateLinkOptions (plain o) None None None.

(** The program state: the heap, the server's state, and the call log. *)
Record State (W : Type) : Type := mkState {
  heap : list Object;
  world : W;
  calls : list Call
}.
Arguments mkState {W}.
Arguments heap {W}.
Arguments world {W}.
Arguments calls {W}.

(** ** A state and exception monad for method bodies *)

(** [Stuck] stands for an access that the TypeScript types exclude (a
    reference that does not point to an object of the expected class). *)
Inductive Outcome (A : Type) : Type :=
| Returned (a : A)
| Threw (e : JsThrown)
| Stuck.
Arguments Returned {A}.
Arguments Threw {A}.
Arguments Stuck {A}.

(** A method body: a function from the state to an outcome and a state. *)
Definition M (W A : Type) : Type := State W -> Outcome A * State W.

Section Monad.

Context {W : Type}.

Definition ret {A} (a : A) : M W A := fun st => (Returned a, st).

Definition bind {A B} (c : M W A) (k : A -> M W B) : M W B := fun st =>
  match c st with
  | (Returned a, st') => k a st'
  | (Threw e, st') => (Threw e, st')
  | (Stuck, st') => (Stuck, st')
  end.

Definition throw {A} (e : JsThrown) : M W A := fun st => (Threw e, st).

Definition stuck {A} : M W A := fun st => (Stuck, st).

(** [try { body } catch (error) { handler error }] *)
Definition try_catch {A} (body : M W A) (handler : JsThrown -> M W A)
  : M W A :=
  fun st =>
    match body st with
    | (Threw e, st') => handler e st'
    | r => r
    end.

End Monad.

Notation "'let!' x ':=' c 'in' k" := (bind c (fun x => k))
  (at level 10, x name, c at level 100, k at level 200).
Notation "'do!' c 'in' k" := (bind c (fun _ => k))
  (at level 10, c at level 100, k at level 200).

Section Client.

Context {W : Type}.
Variable remote : Remote W.

(** [new C(...)]: the fresh object gets the next free location. *)
Definition alloc (o : Object) : M W loc := fun st =>
  (Returned (length (heap st)),
   mkState (heap st ++ [o]) (world st) (calls st)).

Definition read (p : loc) : M W Object := fun st =>
  match heap st !! p with
  | Some o => (Returned o, st)
  | None => (Stuck, st)
  end.

Definition write (p : loc) (o : Object) : M W unit := fun st =>
  (Returned tt, mkState (<[p := o]> (heap st)) (world st) (calls st)).

Definition read_Gatepay (this : loc) : M W Gatepay :=
  let! o := read this in
  match o with ObjGatepay g => ret g | _ => stuck end.

Definition read_Configuration (p : loc) : M W Configuration :=
  let! o := read p in
  match o with ObjConfiguration c => ret c | _ => stuck end.

Definition read_Options (p : loc) : M W CreateLinkOptions :=
  let! o := read p in
  match o with ObjOptions c => ret c | _ => stuck end.

(** The Configuration a Links sub-client was built against, read through
    the reference it holds. *)
Definition LinksApi_configuration (api : loc) : M W Configuration :=
  let! o := read api in
  match o with ObjLinksApi cfg => read_Configuration cfg | _ => stuck end.

(** One remote operation: run the endpoint on the server state, log the
    call, and resolve or reject. *)
Definition invoke {A} (c : Configuration) (rq : Request)
    (endpoint : W -> (JsThrown + A) * W) : M W A := fun st =>
  match endpoint (world st) with
  | (inr a, w') =>
      (Returned a,
       mkState (heap st) w' (calls st ++ [mkCall c rq true]))
  | (inl e, w') =>
      (Threw e,
       mkState (heap st) w' (calls st ++ [mkCall c rq false]))
  end.

(** *** The Links sub-client (pass-through operations) *)

Definition LinksApi_postLinks (api : loc) (postLinksRequest : loc) : M W Link :=
  let! c := LinksApi_configuration api in
  let! rq := read_Options postLinksRequest in
  invoke c (PostLinks rq) (remote_postLinks remote c rq).

Definition LinksApi_postLinksByLinkUuidTolls (api : loc) (linkUuid : string)
    (body : Toll) : M W unit :=
  let! c := LinksApi_configuration api in
  invoke c (PostLinksByLinkUuidTolls linkUuid body)
    (remote_postTolls remote c linkUuid body).

Definition LinksApi_postLinksByLinkUuidResources (api : loc)
    (linkUuid : string) (body : Resource) : M W unit :=
  let! c := LinksApi_configuration api in
  invoke c (PostLinksByLinkUuidResources linkUuid body)
    (remote_postResources remote c linkUuid body).

Definition LinksApi_postLinksByLinkUuidActions (api : loc)
    (linkUuid : string) (body : Action) : M W unit :=
  let! c := LinksApi_configuration api in
  invoke c (PostLinksByLinkUuidActions linkUuid body)
    (remote_postActions remote c linkUuid body).

Definition LinksApi_getLinksByUuidOrAlias (api : loc)
    (uuidOrAlias : string) : M W Link :=
  let! c := LinksApi_configuration api in
  invoke c (GetLinksByUuidOrAlias uuidOrAlias)
    (remote_getLink remote c uuidOrAlias).

(** ** The façade *)

Definition default_basePath : string := "https://api.gatepay.cloud".

(** [this.links], [this.configuration] *)
Definition this_links (this : loc) : M W loc :=
  let! g := read_Gatepay this in ret (links g).

Definition this_configuration (this : loc) : M W loc :=
  let! g := read_Gatepay this in ret (configuration g).

Definition set_configuration (this p : loc) : M W unit :=
  let! g := read_Gatepay this in
  write this (ObjGatepay (mkGatepay p (account g) (links g) (networks g))).

Definition set_account (this p : loc) : M W unit :=
  let! g := read_Gatepay this in
  write this
    (ObjGatepay (mkGatepay (configuration g) p (links g) (networks g))).

Definition set_links (this p : loc) : M W unit :=
  let! g := read_Gatepay this in
  write this
    (ObjGatepay (mkGatepay (configuration g) (account g) p (networks g))).

Definition set_networks (this p : loc) : M W unit :=
  let! g := read_Gatepay this in
  write this
    (ObjGatepay (mkGatepay (configuration g) (account g) (links g) p)).

(** [constructor(options)].  The façade object is allocated once its four
    fields are known, so that no half-initialised object is ever in the
    heap; the four objects it refers to are allocated in source order. *)
Definition new_Gatepay (options : GatepayClientOptions) : M W loc :=
  let! cfg := alloc (ObjConfiguration
                  (mkConfiguration
                     (or_default (opt_basePath options) default_basePath)
                     (apiToken options))) in
  let! a := alloc (ObjAccountApi cfg) in
  let! l := alloc (ObjLinksApi cfg) in
  let! n := alloc (ObjNetworksApi cfg) in
  alloc (ObjGatepay (mkGatepay cfg a l n)).

(** The sequential [for (const action of actions) await ...] loop. *)
Fixpoint for_of {A} (xs : list A) (body : A -> M W unit) : M W unit :=
  match xs with
  | [] => ret tt
  | x :: xs' => do! body x in for_of xs' body
  end.

(** Step 1: the request is a copy of the options with the three composite
    fields set to [undefined]; it is a fresh object. *)
Definition step1_create (this options : loc) : M W Link :=
  let! o := read_Options options in
  let! postLinksRequest := alloc (ObjOptions (stripped o)) in
  let! api := this_links this in
  LinksApi_postLinks api postLinksRequest.

(** Step 2: create toll if provided. *)
Definition step2_toll (this options : loc) (linkUuid : string) : M W unit :=
  let! o := read_Options options in
  match toll o with
  | Some t =>
      let! api := this_links this in
      LinksApi_postLinksByLinkUuidTolls api linkUuid t
  | None => ret tt
  end.

(** Step 3: create resource if provided. *)
Definition step3_resource (this options : loc) (linkUuid : string)
  : M W unit :=
  let! o := read_Options options in
  match resource o with
  | Some r =>
      let! api := this_links this in
      LinksApi_postLinksByLinkUuidResources api linkUuid r
  | None => ret tt
  end.

(** Step 4: create actions if provided
    ([options.actions && options.actions.length > 0]). *)
Definition step4_actions (this options : loc) (linkUuid : string)
  : M W unit :=
  let! o := read_Options options in
  match actions o with
  | Some (a :: acts) =>
      for_of (a :: acts) (fun action =>
        let! api := this_links this in
        LinksApi_postLinksByLinkUuidActions api linkUuid action)
  | _ => ret tt
  end.

(** Step 5: fetch and return the complete link. *)
Definition step5_readback (this : loc) (linkUuid : string) : M W Link :=
  let! api := this_links this in
  let! completeLink := LinksApi_getLinksByUuidOrAlias api linkUuid in
  ret completeLink.

(** The body of the [try] block of [createLink]. *)
Definition createLink_body (this options : loc) : M W Link :=
  let! createdLink := step1_create this options in
  if negb (truthy (uuid createdLink)) then
    throw (new_Error "Failed to create link: no UUID returned")
  else
    let linkUuid := default "" (uuid createdLink) in
    do! step2_toll this options linkUuid in
    do! step3_resource this options linkUuid in
    do! step4_actions this options linkUuid in
    step5_readback this linkUuid.

Definition createLink (this options : loc) : M W Link :=
  try_catch (createLink_body this options)
    (fun error =>
       throw (new_Error
                ("Failed to create link: " +:+ message_or_unknown error))).

Definition updateApiToken (this : loc) (apiToken : string) : M W unit :=
  let! old := (let! p := this_configuration this in read_Configuration p) in
  let! cfg := alloc (ObjConfiguration (mkConfiguration (basePath old) apiToken)) in
  do! set_configuration this cfg in
  let! a := (let! p := this_configuration this in alloc (ObjAccountApi p)) in
  do! set_account this a in
  let! l := (let! p := this_configuration this in alloc (ObjLinksApi p)) in
  do! set_links this l in
  let! n := (let! p := this_configuration this in alloc (ObjNetworksApi p)) in
  set_networks this n.

Definition updateBasePath (this : loc) (basePath : string) : M W unit :=
  let! old := (let! p := this_configuration this in read_Configuration p) in
  let! cfg := alloc (ObjConfiguration (mkConfiguration basePath (accessToken old))) in
  do! set_configuration this cfg in
  let! a := (let! p := this_configuration this in alloc (ObjAccountApi p)) in
  do! set_account this a in
  let! l := (let! p := this_configuration this in alloc (ObjLinksApi p)) in
  do! set_links this l in
  let! n := (let! p := this_configuration this in alloc (ObjNetworksApi p)) in
  set_networks this n.

(** [getConfiguration()] returns the reference held by the façade. *)
Definition getConfiguration (this : loc) : M W loc :=
  this_configuration this.

End Client.


(** ** Observations on the call log *)

Definition is_postLinks (rq : Request) : bool :=
  match rq with PostLinks _ => true | _ => false end.
Definition is_toll (rq : Request) : bool :=
  match rq with PostLinksByLinkUuidTolls _ _ => true | _ => false end.
Definition is_resource (rq : Request) : bool :=
  match rq with PostLinksByLinkUuidResources _ _ => true | _ => false end.
Definition is_action (rq : Request) : bool :=
  match rq with PostLinksByLinkUuidActions _ _ => true | _ => false end.
Definition is_readback (rq : Request) : bool :=
  match rq with GetLinksByUuidOrAlias _ => true | _ => false end.

(** How many logged calls are of a given kind. *)
Definition count_calls (kind : Request -> bool) (log : list Call) : nat :=
  length (filter (fun c => kind (call_request c) = true) log).

(** The bodies of the action-creation calls of a log, in call order. *)
Definition action_bodies (log : list Call) : list Action :=
  omap (fun c =>
          match call_request c with
          | PostLinksByLinkUuidActions _ a => Some a
          | _ => None
          end) log.

(** No logged call comes after a rejected one. *)
Fixpoint stops_at_rejection (log : list Call) : Prop :=
  match log with
  | [] => True
  | c :: rest =>
      (call_resolved c = false -> rest = []) /\ stops_at_rejection rest
  end.

(** The façade at [this] currently routes Links operations through a
    sub-client bound to Configuration [c]. *)
Definition links_bound (h : list Object) (this : loc) (c : Configuration)
  : Prop :=
  exists g cl,
    h !! this = Some (ObjGatepay g) /\
    h !! links g = Some (ObjLinksApi cl) /\
    h !! cl = Some (ObjConfiguration c).

(** The Configuration the façade at [this] currently holds. *)
Definition current_configuration (h : list Object) (this : loc)
  : option Configuration :=
  match h !! this with
  | Some (ObjGatepay g) =>
      match h !! configuration g with
      | Some (ObjConfiguration c) => Some c
      | _ => None
      end
  | _ => None
  end.

(** Options with plain link fields only. *)
Definition plain_only (o : CreateLinkOptions) : Prop :=
  toll o = None /\ resource o = None /\
  (actions o = None \/ actions o = Some []).

Definition nonempty (s : string) : Prop := s <> "".

(** The façade at [this] is usable and [options] is the caller's options
    object. *)
Definition ready (h : list Object) (this options : loc)
    (c : Configuration) (o : CreateLinkOptions) : Prop :=
  links_bound h this c /\ h !! options = Some (ObjOptions o).

(** The list of actions the caller supplied ([undefined] counts as none). *)
Definition supplied_actions (o : CreateLinkOptions) : list Action :=
  default [] (actions o).

Definition failure_prefix : string := "Failed to create link: ".

(** The action-creation calls of a log, in call order. *)
Definition action_calls (log : list Call) : list Call :=
  filter (fun c => is_action (call_request c) = true) log.

Definition all_resolved (log : list Call) : Prop :=
  Forall (fun c => call_resolved c = true) log.

(** [m], started in [st], ends with outcome [r], leaves the heap as it was,
    leaves the server in state [w'] and appends [new] to the call log. *)
Definition runs {W A} (m : State W -> Outcome A * State W) (st : State W)
    (r : Outcome A) (w' : W) (new : list Call) : Prop :=
  m st = (r, mkState (heap st) w' (calls st ++ new)).

(** What every run of the steps after link creation looks like from the
    outside: it does not get stuck, no call follows a rejected one, the
    action calls are those of a prefix of the supplied list, in order, and
    a run that returns has had every call resolve and every supplied
    action submitted. *)
Definition orderly {A} (acts : list Action) (r : Outcome A)
    (new : list Call) : Prop :=
  r <> Stuck /\
  stops_at_rejection new /\
  (exists k, action_bodies new = take k acts) /\
  (forall a, r = Returned a -> all_resolved new /\ action_bodies new = acts).

(** ** The configuration states a façade can reach *)

(** One call of an update operation. *)
Inductive Update : Type :=
| UpdateApiToken (apiToken : string)
| UpdateBasePath (basePath : string).

Definition update_argument (up : Update) : string :=
  match up with
  | UpdateApiToken t => t
  | UpdateBasePath b => b
  end.

Definition apply_update {W} (this : loc) (up : Update) : M W unit :=
  match up with
  | UpdateApiToken t => updateApiToken this t
  | UpdateBasePath b => updateBasePath this b
  end.

(** [new Gatepay(options)] in an empty heap, followed by the given update
    calls in order: every Configuration object of the resulting heap was
    made by the façade. *)
Definition facade_after (options : GatepayClientOptions)
    (ups : list Update) : Outcome loc * State unit :=
  (let! this := new_Gatepay options in
   do! for_of ups (apply_update this) in
   ret this) (mkState [] tt []).

Definition valid_configuration (c : Configuration) : Prop :=
  nonempty (basePath c) /\ nonempty (accessToken c).

Definition valid_object (ob : Object) : Prop :=
  match ob with
  | ObjConfiguration c => valid_configuration c
  | _ => True
  end.

(** Every Configuration object of the heap has both fields non-empty. *)
Definition all_configurations_valid (h : list Object) : Prop :=
  Forall valid_object h.

(** What a call through a sub-client tells about the Configuration it ran
    against: the call it logs carries Configuration [c]. *)
Definition logs_call_with {W A} (m : M W A) (st : State W)
    (c : Configuration) : Prop :=
  exists r w' rq ok,
    m st = (r, mkState (heap st) w' (calls st ++ [mkCall c rq ok])).

(** ** The protocol of the composite creation *)

(** The requests that follow link creation, in the order [createLink]
    issues them: the toll if supplied, the resource if supplied, the
    actions in list order, the read-back; all keyed by the created uuid. *)
Definition follow_up_requests (o : CreateLinkOptions) (u : string)
  : list Request :=
  match toll o with
  | Some t => [PostLinksByLinkUuidTolls u t]
  | None => []
  end ++
  match resource o with
  | Some r => [PostLinksByLinkUuidResources u r]
  | None => []
  end ++
  map (PostLinksByLinkUuidActions u) (supplied_actions o) ++
  [GetLinksByUuidOrAlias u].

(** The follow-up requests that create something: all but the read-back. *)
Definition sub_resource_requests (o : CreateLinkOptions) (u : string)
  : list Request :=
  match toll o with
  | Some t => [PostLinksByLinkUuidTolls u t]
  | None => []
  end ++
  match resource o with
  | Some r => [PostLinksByLinkUuidResources u r]
  | None => []
  end ++
  map (PostLinksByLinkUuidActions u) (supplied_actions o).

Definition thrown_of {A} (answer : JsThrown + A) : option JsThrown :=
  match answer with
  | inl e => Some e
  | inr _ => None
  end.

(** How the service answers a request made under Configuration [c] in
    server state [w]: the value it rejects with, or [None] when it
    resolves. *)
Definition rejection {W} (remote : Remote W) (c : Configuration)
    (rq : Request) (w : W) : option JsThrown :=
  match rq with
  | PostLinks r => thrown_of (fst (remote_postLinks remote c r w))
  | PostLinksByLinkUuidTolls u t =>
      thrown_of (fst (remote_postTolls remote c u t w))
  | PostLinksByLinkUuidResources u r =>
      thrown_of (fst (remote_postResources remote c u r w))
  | PostLinksByLinkUuidActions u a =>
      thrown_of (fst (remote_postActions remote c u a w))
  | GetLinksByUuidOrAlias k => thrown_of (fst (remote_getLink remote c k w))
  end.

(** The state the service is in after answering a request. *)
Definition next_state {W} (remote : Remote W) (c : Configuration)
    (rq : Request) (w : W) : W :=
  match rq with
  | PostLinks r => snd (remote_postLinks remote c r w)
  | PostLinksByLinkUuidTolls u t => snd (remote_postTolls remote c u t w)
  | PostLinksByLinkUuidResources u r =>
      snd (remote_postResources remote c u r w)
  | PostLinksByLinkUuidActions u a => snd (remote_postActions remote c u a w)
  | GetLinksByUuidOrAlias k => snd (remote_getLink remote c k w)
  end.

(** The logged calls are what the service answered, one after the other,
    starting in state [w] and ending in state [w']: each flag is the
    service's answer in the state the previous calls left, and nothing
    else touched the service in between. *)
Fixpoint served {W} (remote : Remote W) (c : Configuration) (w : W)
    (log : list Call) (w' : W) : Prop :=
  match log with
  | [] => w' = w
  | call :: rest =>
      call_resolved call =
        match rejection remote c (call_request call) w with
        | None => true
        | Some _ => false
        end /\
      served remote c (next_state remote c (call_request call) w) rest w'
  end.

(** A run of some of the steps against the request sequence [reqs], from
    server state [w0] to server state [w']: the calls made are those of an
    initial segment of [reqs], all under Configuration [c], answered by
    the service one after the other; a run that returns has made all of
    them, all resolved, and its result satisfies [Q]; a run that throws
    has had every call resolve but the last, and throws what the service
    rejected that last call with in the state the calls before it left. *)
Definition protocol_run {W A} (remote : Remote W) (c : Configuration)
    (reqs : list Request) (Q : A -> Prop) (w0 : W) (r : Outcome A)
    (new : list Call) (w' : W) : Prop :=
  r <> Stuck /\
  (exists k, k <= length reqs /\ map call_request new = take k reqs) /\
  Forall (fun call => call_configuration call = c) new /\
  served remote c w0 new w' /\
  (forall a, r = Returned a ->
     all_resolved new /\ map call_request new = reqs /\ Q a) /\
  (forall e, r = Threw e ->
     exists done last w,
       new = done ++ [last] /\ all_resolved done /\
       call_resolved last = false /\
       served remote c w0 done w /\
       rejection remote c (call_request last) w = Some e).

(** The Configuration value a sequence of updates leads to. *)
Definition updated (c : Configuration) (up : Update) : Configuration :=
  match up with
  | UpdateApiToken t => mkConfiguration (basePath c) t
  | UpdateBasePath b => mkConfiguration b (accessToken c)
  end.

(** The Configuration the constructor makes of its options. *)
Definition initial_configuration (options : GatepayClientOptions)
  : Configuration :=
  mkConfiguration (or_default (opt_basePath options) default_basePath)
    (apiToken options).

(** A caller's program: build the façade, build the options object, call
    [createLink]. *)
Definition construct_and_create {W} (remote : Remote W)
    (client : GatepayClientOptions) (o : CreateLinkOptions) : M W Link :=
  let! this := new_Gatepay client in
  let! options := alloc (ObjOptions o) in
  createLink remote this options.

(** ** The payment monitor of the polling example

    [monitorLinkPayments] polls the payments of a link on a timer and hands
    each payment it has not seen before to the caller's callback.  The
    state its closure keeps (the set of seen payment ids, the poll count,
    whether the interval is still set) is a record; one firing of the
    timer is [poll_tick]. *)

Record Payment : Type := mkPayment {
  payment_uuid : string;
  payment_amount : string;
  payment_status : string;
  transactionHash : string;
  createdAt : string
}.

(** The response of [getLinksByLinkUuidPayments]; [payments] may be
    absent. *)
Record PaymentsResponse : Type := mkPaymentsResponse {
  payments : option (list Payment)
}.

(** A callback of the caller: it acts on the caller's own state [U] and
    may throw. *)
Definition Callback (A U : Type) : Type := A -> U -> option JsThrown * U.

Record MonitorOptions (U : Type) : Type := mkMonitorOptions {
  pollIntervalMs : option Z;
  maxPolls : option Z;
  onPaymentFound : option (Callback Payment U);
  onError : option (Callback JsThrown U)
}.
Arguments mkMonitorOptions {U}.
Arguments pollIntervalMs {U}.
Arguments maxPolls {U}.
Arguments onPaymentFound {U}.
Arguments onError {U}.

(** The monitor's closure state, the server's state [S] and the caller's
    state [U]. *)
Record Monitor (S U : Type) : Type := mkMonitor {
  seenPayments : gset string;
  pollCount : Z;
  polling : bool;
  service : S;
  caller : U
}.
Arguments mkMonitor {S U}.
Arguments seenPayments {S U}.
Arguments pollCount {S U}.
Arguments polling {S U}.
Arguments service {S U}.
Arguments caller {S U}.

(** [payments.filter(payment => { if (!seenPayments.has(payment.uuid)) {
    seenPayments.add(payment.uuid); return true } return false })]: the
    filter and the set it updates as it goes. *)
Fixpoint filter_unseen (seen : gset string) (ps : list Payment)
  : list Payment * gset string :=
  match ps with
  | [] => ([], seen)
  | p :: rest =>
      if decide (payment_uuid p ∈ seen) then filter_unseen seen rest
      else
        let '(new, seen') := filter_unseen ({[payment_uuid p]} ∪ seen) rest in
        (p :: new, seen')
  end.

Section PaymentMonitor.

Context {S U : Type}.

(** Modelled from the spec: the generated [getLinksByLinkUuidPayments]
    operation is not part of the sources at hand; it takes the link uuid,
    a limit and a page and resolves with a response or rejects. *)
Variable getLinksByLinkUuidPayments :
  string -> Z -> Z -> S -> (JsThrown + PaymentsResponse) * S.

Definition on_monitor {A} (f : Monitor S U -> Outcome A * Monitor S U)
  : M (Monitor S U) A := fun st =>
  let '(r, m) := f (world st) in (r, mkState (heap st) m (calls st)).

(** [pollCount++] *)
Definition count_poll : M (Monitor S U) unit :=
  on_monitor (fun m =>
    (Returned tt,
     mkMonitor (seenPayments m) (pollCount m + 1) (polling m) (service m)
       (caller m))).

Definition fetch_payments (linkUuid : string) (limit page : Z)
  : M (Monitor S U) PaymentsResponse :=
  on_monitor (fun m =>
    match getLinksByLinkUuidPayments linkUuid limit page (service m) with
    | (inr response, s') =>
        (Returned response,
         mkMonitor (seenPayments m) (pollCount m) (polling m) s' (caller m))
    | (inl e, s') =>
        (Threw e,
         mkMonitor (seenPayments m) (pollCount m) (polling m) s' (caller m))
    end).

Definition take_unseen (ps : list Payment) : M (Monitor S U) (list Payment) :=
  on_monitor (fun m =>
    let '(new, seen') := filter_unseen (seenPayments m) ps in
    (Returned new,
     mkMonitor seen' (pollCount m) (polling m) (service m) (caller m))).

(** [await callback(argument)] *)
Definition call_back {A} (cb : Callback A U) (a : A) : M (Monitor S U) unit :=
  on_monitor (fun m =>
    match cb a (caller m) with
    | (None, u') =>
        (Returned tt,
         mkMonitor (seenPayments m) (pollCount m) (polling m) (service m) u')
    | (Some e, u') =>
        (Threw e,
         mkMonitor (seenPayments m) (pollCount m) (polling m) (service m) u')
    end).

(** [clearInterval(pollInterval)] *)
Definition clearInterval : M (Monitor S U) unit :=
  on_monitor (fun m =>
    (Returned tt,
     mkMonitor (seenPayments m) (pollCount m) false (service m) (caller m))).

(** [if (callback) { try { await callback(argument) } catch { ... } }] *)
Definition guarded_call {A} (cb : option (Callback A U)) (a : A)
  : M (Monitor S U) unit :=
  match cb with
  | Some f => try_catch (call_back f a) (fun _ => ret tt)
  | None => ret tt
  end.

(** [if (pollCount >= maxPolls) { clearInterval(pollInterval) }] *)
Definition stop_at_limit (limit : Z) : M (Monitor S U) unit :=
  let! m := on_monitor (fun m => (Returned m, m)) in
  if (limit <=? pollCount m)%Z then clearInterval else ret tt.

(** One firing of the timer: the body given to [setInterval]. *)
Definition poll_tick (linkUuid : string) (options : MonitorOptions U)
  : M (Monitor S U) unit :=
  let maxPolls := default 120%Z (maxPolls options) in
  try_catch
    (do! count_poll in
     let! response := fetch_payments linkUuid 50 1 in
     let payments := default [] (payments response) in
     let! newPayments := take_unseen payments in
     do! for_of newPayments (fun payment =>
           guarded_call (onPaymentFound options) payment) in
     stop_at_limit maxPolls)
    (fun error =>
       do! guarded_call (onError options) error in
       stop_at_limit maxPolls).

End PaymentMonitor.

(** The state [monitorLinkPayments] starts from: nothing seen, no poll
    made, the interval set. *)
Definition monitor_started {S U} (s : S) (u : U) : Monitor S U :=
  mkMonitor ∅ 0 true s u.

(** The function [monitorLinkPayments] returns: it clears the interval. *)
Definition stop_monitoring {S U} (m : Monitor S U) : Monitor S U :=
  mkMonitor (seenPayments m) (pollCount m) false (service m) (caller m).

(** The caller's state after the callback has been awaited for each of
    the payments in turn, whether or not a call threw. *)
Definition notified {U} (cb : option (Callback Payment U))
    (ps : list Payment) (u : U) : U :=
  match cb with
  | Some f => fold_left (fun u p => snd (f p u)) ps u
  | None => u
  end.

Definition reported {U} (cb : option (Callback JsThrown U))
    (e : JsThrown) (u : U) : U :=
  match cb with
  | Some f => snd (f e u)
  | None => u
  end.

(** Whether the interval is still set after a firing that brought the
    poll count to [count]. *)
Definition still_polling (was : bool) (limit : option Z) (count : Z) : bool :=
  was && negb (default 120%Z limit <=? count)%Z.

(** What the callback receives over a sequence of responses, each
    filtered against the set the previous ones left. *)
Fixpoint deliveries (seen : gset string) (responses : list (list Payment))
  : list Payment * gset string :=
  match responses with
  | [] => ([], seen)
  | ps :: rest =>
      let '(new, seen1) := filter_unseen seen ps in
      let '(more, seen2) := deliveries seen1 rest in
      (new ++ more, seen2)
  end.

(** [n] firings of the timer, each one finished before the next starts. *)
Fixpoint fire {W} (tick : M W unit) (n : nat) (st : State W) : State W :=
  match n with
  | 0 => st
  | S k => fire tick k (snd (tick st))
  end.

(** The responses the first [n] polls of a service started in state [s]
    get, in order: the payments of a poll that resolved ([payments] absent
    counts as none), nothing for a poll that was rejected. *)
Fixpoint polled {T}
    (getPayments : string -> Z -> Z -> T -> (JsThrown + PaymentsResponse) * T)
    (linkUuid : string) (n : nat) (s : T) : list (list Payment) :=
  match n with
  | 0 => []
  | Datatypes.S k =>
      match getPayments linkUuid 50%Z 1%Z s with
      | (inr response, s') =>
          default [] (payments response) :: polled getPayments linkUuid k s'
      | (inl _, s') => [] :: polled getPayments linkUuid k s'
      end
  end.

(** An [onPaymentFound] that records the payments it is called with, in
    call order, and throws when [throws] says so. *)
Definition recording (throws : Payment -> option JsThrown)
  : Callback Payment (list Payment) :=
  fun p u => (throws p, u ++ [p]).

(** An [onError] that leaves the caller's state alone, and throws when
    [throws] says so. *)
Definition silent {U} (throws : JsThrown -> option JsThrown)
  : Callback JsThrown U :=
  fun e u => (throws e, u).

(** ** A scripted test double of the remote service

    The server's state is the list of Links it stores.  A script fixes
    which uuid creation returns and which sub-resource calls reject. *)
Module Mock.

Record Script : Type := mkScript {
  creation_error : option JsThrown;
  creation_uuid : option string;
  toll_error : option JsThrown;
  resource_error : option JsThrown;
  action_error : Action -> option JsThrown
}.

Definition reply (err : option JsThrown) (w : list Link)
  : (JsThrown + unit) * list Link :=
  match err with
  | Some e => (inl e, w)
  | None => (inr tt, w)
  end.

Definition has_key (key : string) (l : Link) : bool :=
  match uuid l, link_alias l with
  | Some u, Some a => String.eqb u key || String.eqb a key
  | Some u, None => String.eqb u key
  | None, Some a => String.eqb a key
  | None, None => false
  end.

(** The Link the server makes of a creation request. *)
Definition link_of (s : Script) (rq : CreateLinkOptions) : Link :=
  mkLink (creation_uuid s) (name rq) (alias rq) (description rq)
    (status rq) (type rq)
    (option_map (fun u => "https://gatepay.link/" +:+ u) (creation_uuid s)).

Definition not_found : JsThrown :=
  ErrorObject "Response returned an error code" (Some 404%Z) None.

Definition server (s : Script) : Remote (list Link) :=
  mkRemote (list Link)
    (fun _ rq w =>
       match creation_error s with
       | Some e => (inl e, w)
       | None => (inr (link_of s rq), w ++ [link_of s rq])
       end)
    (fun _ _ _ w => reply (toll_error s) w)
    (fun _ _ _ w => reply (resource_error s) w)
    (fun _ _ a w => reply (action_error s a) w)
    (fun _ key w =>
       match List.find (has_key key) w with
       | Some l => (inr l, w)
       | None => (inl not_found, w)
       end).

Definition forbidden : JsThrown :=
  ErrorObject "Response returned an error code" (Some 403%Z) None.

Definition server_error : JsThrown :=
  ErrorObject "Response returned an error code" (Some 500%Z) None.

Definition all_ok : Script :=
  mkScript None (Some "u-1") None None (fun _ => None).

Definition creation_rejected : Script :=
  mkScript (Some forbidden) None None None (fun _ => None).

Definition no_uuid : Script :=
  mkScript None None None None (fun _ => None).

Definition toll_rejected : Script :=
  mkScript None (Some "u-1") (Some forbidden) None (fun _ => None).

Definition toll_rejected_500 : Script :=
  mkScript None (Some "u-1") (Some server_error) None (fun _ => None).

(** Rejects exactly the actions whose trigger is ["bad"]. *)
Definition bad_trigger_rejected : Script :=
  mkScript None (Some "u-1") None None
    (fun a => if String.eqb (trigger a) "bad" then Some forbidden else None).

Definition production : Configuration :=
  mkConfiguration "https://api.gatepay.cloud" "t1".

Definition facade : Gatepay := mkGatepay 0 1 2 3.

(** A heap as [new Gatepay({apiToken: "t1"})] leaves it (locations 0 to 4),
    followed by the caller's options object at location 5. *)
Definition heap_with (o : CreateLinkOptions) : list Object :=
  [ObjConfiguration production; ObjAccountApi 0; ObjLinksApi 0;
   ObjNetworksApi 0; ObjGatepay facade; ObjOptions o].

Definition start (o : CreateLinkOptions) : State (list Link) :=
  mkState (heap_with o) [] [].

Definition just_name : CreateLinkOptions :=
  mkCreateLinkOptions
    (mkPostLinksRequest "Test Link" None None None None) None None None.

Definition usdc : Toll :=
  mkToll [mkRequirement "base" "0x833589fCD6eDb6E08f4c7C32D4f71b54bdA02913"
            "5000000" "0x1234567890123456789012345678901234567890"].

Definition welcome : Resource :=
  mkResource link (Some "https://yourapp.com/welcome") None None.

Definition hook (t : string) : Action :=
  mkAction "callback" t "https://yourapi.com/webhooks/payment-completed"
    "POST".

Definition with_toll : CreateLinkOptions :=
  mkCreateLinkOptions
    (mkPostLinksRequest "Premium Service Access" None None None None)
    (Some usdc) (Some welcome) (Some [hook "payment_success"]).

Definition two_actions : CreateLinkOptions :=
  mkCreateLinkOptions
    (mkPostLinksRequest "Premium Service Access" None None None None)
    None None (Some [hook "bad"; hook "payment_success"]).

End Mock.

(** ** A service that creates everything and then fails the read-back *)
Module EdgeMock.

Definition unavailable : JsThrown :=
  ErrorObject "Service Unavailable" (Some 503%Z) None.

Definition readback_unavailable : Remote (list Link) :=
  mkRemote (list Link)
    (remote_postLinks (Mock.server Mock.all_ok))
    (remote_postTolls (Mock.server Mock.all_ok))
    (remote_postResources (Mock.server Mock.all_ok))
    (remote_postActions (Mock.server Mock.all_ok))
    (fun _ _ w => (inl unavailable, w)).

End EdgeMock.

(** ** A service that already stores a Link under the alias "u-1"

    The service of [Mock.all_ok] hands out the uuid "u-1" at creation and
    looks a key up among uuids and aliases alike, first match first; here
    it starts with a Link of another uuid whose alias is "u-1". *)
Module AliasMock.

Definition squatter : Link :=
  mkLink (Some "other-uuid") "Older Link" (Some "u-1") None None None
    (Some "https://gatepay.link/other-uuid").

Definition start : State (list Link) :=
  mkState (Mock.heap_with Mock.just_name) [squatter] [].

End AliasMock.

(** ** A scripted payments service and recording callbacks *)
Module MonitorMock.

Definition pay (id : string) : Payment :=
  mkPayment id "5000000" "confirmed" "0xabc123" "2024-01-15T10:30:00Z".

(** The service counts the polls it has answered: the first poll gets
    three payments, one of them twice; the second is rejected; the later
    ones get one known and one new payment. *)
Definition payments_service (linkUuid : string) (limit page : Z) (n : nat)
  : (JsThrown + PaymentsResponse) * nat :=
  match n with
  | 0 => (inr (mkPaymentsResponse (Some [pay "p1"; pay "p2"; pay "p1"])), 1)
  | 1 => (inl Mock.server_error, 2)
  | _ => (inr (mkPaymentsResponse (Some [pay "p2"; pay "p3"])), Datatypes.S n)
  end.

(** Records the payment id, and throws on payment ["p2"]. *)
Definition record_payment : Callback Payment (list string) :=
  fun p u =>
    (if String.eqb (payment_uuid p) "p2" then Some Mock.forbidden else None,
     u ++ [payment_uuid p]).

(** Records the error, and throws it again. *)
Definition record_error : Callback JsThrown (list string) :=
  fun e u => (Some e, u ++ ["error: " +:+ message_or_unknown e]).

Definition two_polls : MonitorOptions (list string) :=
  mkMonitorOptions None (Some 2%Z) (Some record_payment) (Some record_error).

End MonitorMock.

(** * Facts *)

Section Facts.

Context {W : Type}.
Variable remote : Remote W.

Implicit Types (st : State W) (h : list Object) (c : Configuration).
Implicit Types (o : CreateLinkOptions) (this options : loc).

(** ** Running the primitives *)

Lemma invoke_resolved {A} c rq (ep : W -> (JsThrown + A) * W) st a w' :
  ep (world st) = (inr a, w') ->
  invoke c rq ep st =
    (Returned a, mkState (heap st) w' (calls st ++ [mkCall c rq true])).
Proof. intros H. unfold invoke. now rewrite H. Qed.

Lemma invoke_rejected {A} c rq (ep : W -> (JsThrown + A) * W) st e w' :
  ep (world st) = (inl e, w') ->
  invoke c rq ep st =
    (Threw e, mkState (heap st) w' (calls st ++ [mkCall c rq false])).
Proof. intros H. unfold invoke. now rewrite H. Qed.

Lemma links_bound_app h l this c :
  links_bound h this c -> links_bound (h ++ l) this c.
Proof.
  intros (g & cl & Hg & Hl & Hc). exists g, cl.
  repeat split; now apply lookup_app_l_Some.
Qed.

Lemma ready_app h l this options c o :
  ready h this options c o -> ready (h ++ l) this options c o.
Proof.
  intros [Hb Ho]. split; [now apply links_bound_app|].
  now apply lookup_app_l_Some.
Qed.

Lemma ready_distinct h this options c o :
  ready h this options c o -> options < length h /\ this <> options.
Proof.
  intros [(g & cl & Hg & _) Ho]. split.
  - eapply lookup_lt_Some; eassumption.
  - intros ->. rewrite Hg in Ho. discriminate.
Qed.

(** A Links operation reached through [this.links] runs against the
    Configuration the façade's current sub-client is bound to. *)
Lemma through_facade {A} st this c (op : Configuration -> M W A) :
  links_bound (heap st) this c ->
  bind (this_links this)
    (fun api => bind (LinksApi_configuration api) op) st = op c st.
Proof.
  intros (g & cl & Hg & Hl & Hc).
  unfold bind, this_links, read_Gatepay, LinksApi_configuration,
    read_Configuration, bind, read, ret.
  rewrite Hg. cbn. rewrite Hl. cbn. now rewrite Hc.
Qed.

Lemma step1_eq st this options c o :
  ready (heap st) this options c o ->
  step1_create remote this options st =
    invoke c (PostLinks (stripped o)) (remote_postLinks remote c (stripped o))
      (mkState (heap st ++ [ObjOptions (stripped o)]) (world st) (calls st)).
Proof.
  intros [Hb Ho]. unfold step1_create, read_Options.
  unfold bind at 1 2. unfold read at 1. rewrite Ho.
  unfold ret at 1. unfold bind at 1. unfold alloc at 1.
  unfold LinksApi_postLinks.
  rewrite (through_facade _ this c).
  2:{ cbn. now apply links_bound_app. }
  unfold bind, read_Options, bind, read, ret. cbn.
  rewrite (list_lookup_middle _ [] _ (length (heap st)) eq_refl).
  reflexivity.
Qed.

Lemma step2_eq st this options c o u :
  ready (heap st) this options c o ->
  step2_toll remote this options u st =
    match toll o with
    | Some t =>
        invoke c (PostLinksByLinkUuidTolls u t)
          (remote_postTolls remote c u t) st
    | None => (Returned tt, st)
    end.
Proof.
  intros [Hb Ho]. unfold step2_toll, read_Options.
  unfold bind at 1 2. unfold read at 1. rewrite Ho. unfold ret at 1.
  destruct (toll o) as [t|]; [|reflexivity].
  unfold LinksApi_postLinksByLinkUuidTolls.
  now rewrite (through_facade _ this c).
Qed.

Lemma step3_eq st this options c o u :
  ready (heap st) this options c o ->
  step3_resource remote this options u st =
    match resource o with
    | Some r =>
        invoke c (PostLinksByLinkUuidResources u r)
          (remote_postResources remote c u r) st
    | None => (Returned tt, st)
    end.
Proof.
  intros [Hb Ho]. unfold step3_resource, read_Options.
  unfold bind at 1 2. unfold read at 1. rewrite Ho. unfold ret at 1.
  destruct (resource o) as [r|]; [|reflexivity].
  unfold LinksApi_postLinksByLinkUuidResources.
  now rewrite (through_facade _ this c).
Qed.

Lemma step5_eq st this c u :
  links_bound (heap st) this c ->
  step5_readback remote this u st =
    invoke c (GetLinksByUuidOrAlias u) (remote_getLink remote c u) st.
Proof.
  intros Hb. unfold step5_readback.
  transitivity
    (bind (this_links this)
       (fun api => bind (LinksApi_configuration api)
          (fun c0 => invoke c0 (GetLinksByUuidOrAlias u)
                       (remote_getLink remote c0 u))) st).
  - unfold LinksApi_getLinksByUuidOrAlias, bind, ret.
    destruct (this_links this st) as [[api| |] st1]; try reflexivity.
    destruct (LinksApi_configuration api st1) as [[c1| |] st2];
      try reflexivity.
    now destruct (invoke _ _ _ st2) as [[?| |] ?].
  - now rewrite (through_facade _ this c).
Qed.

(** ** Composing runs *)

Lemma runs_ret {A} (a : A) st : runs (ret a) st (Returned a) (world st) [].
Proof. unfold runs, ret. destruct st; cbn. now rewrite app_nil_r. Qed.

Lemma runs_bind_returned {A B} (m : M W A) (k : A -> M W B) st a w1 n1 r w2 n2 :
  runs m st (Returned a) w1 n1 ->
  runs (k a) (mkState (heap st) w1 (calls st ++ n1)) r w2 n2 ->
  runs (bind m k) st r w2 (n1 ++ n2).
Proof.
  unfold runs, bind. intros -> ->. cbn. now rewrite app_assoc.
Qed.

Lemma runs_bind_threw {A B} (m : M W A) (k : A -> M W B) st e w1 n1 :
  runs m st (Threw e) w1 n1 -> runs (bind m k) st (Threw e) w1 n1.
Proof. unfold runs, bind. now intros ->. Qed.

Lemma runs_invoke {A} c rq (ep : W -> (JsThrown + A) * W) st :
  (exists a w', ep (world st) = (inr a, w') /\
     runs (invoke c rq ep) st (Returned a) w' [mkCall c rq true]) \/
  (exists e w', ep (world st) = (inl e, w') /\
     runs (invoke c rq ep) st (Threw e) w' [mkCall c rq false]).
Proof.
  destruct (ep (world st)) as [[e|a] w'] eqn:E; [right|left];
    eexists _, _; (split; [reflexivity|]).
  - now apply invoke_rejected.
  - now apply invoke_resolved.
Qed.

(** ** Shapes of logs *)

Lemma action_bodies_app l1 l2 :
  action_bodies (l1 ++ l2) = action_bodies l1 ++ action_bodies l2.
Proof. apply omap_app. Qed.

Lemma stops_at_rejection_app l1 l2 :
  all_resolved l1 -> stops_at_rejection l2 -> stops_at_rejection (l1 ++ l2).
Proof.
  induction 1 as [|x l1 Hx _ IH]; intros H2; cbn; [assumption|].
  split; [congruence | now apply IH].
Qed.

Lemma orderly_rejected {A} acts rq c e :
  is_action rq = false ->
  orderly (A := A) acts (Threw e) [mkCall c rq false].
Proof.
  intros Hrq. repeat split; try discriminate.
  exists 0. rewrite take_0. unfold action_bodies. cbn.
  now destruct rq.
Qed.

Lemma action_bodies_cons_other c rq ok new :
  is_action rq = false ->
  action_bodies (mkCall c rq ok :: new) = action_bodies new.
Proof. intros Hrq. unfold action_bodies. cbn. now destruct rq. Qed.

Lemma orderly_after_resolved {A} acts rq c (r : Outcome A) new :
  is_action rq = false ->
  orderly acts r new -> orderly acts r (mkCall c rq true :: new).
Proof.
  intros Hrq (Hs & Hstop & [k Hk] & Hres). repeat split; try assumption.
  - cbn. discriminate.
  - exists k. now rewrite action_bodies_cons_other.
  - constructor; [reflexivity | now apply (Hres a)].
  - rewrite action_bodies_cons_other by assumption. now apply (Hres a).
Qed.

(** ** The action loop *)

Lemma loop_runs st this c u acts :
  links_bound (heap st) this c ->
  exists r w' new,
    runs (for_of acts (fun action =>
            bind (this_links this) (fun api =>
              LinksApi_postLinksByLinkUuidActions remote api u action)))
      st r w' new /\
    r <> Stuck /\
    stops_at_rejection new /\
    (exists k, k <= length acts /\
       map call_request new =
         map (PostLinksByLinkUuidActions u) (take k acts)) /\
    Forall (fun cl => call_configuration cl = c) new /\
    (forall a, r = Returned a ->
       all_resolved new /\
       map call_request new = map (PostLinksByLinkUuidActions u) acts).
Proof.
  revert st. induction acts as [|a rest IH]; intros st Hb.
  - exists (Returned tt), (world st), []. split; [apply runs_ret|].
    repeat split; try discriminate; try constructor.
    exists 0. split; [cbn; lia | reflexivity].
  - cbn [for_of].
    destruct (runs_invoke c (PostLinksByLinkUuidActions u a)
                (remote_postActions remote c u a) st)
      as [(x & w1 & _ & Hrun) | (e & w1 & _ & Hrun)].
    + set (st1 := mkState (heap st) w1
                    (calls st ++ [mkCall c (PostLinksByLinkUuidActions u a) true])).
      destruct (IH st1 Hb)
        as (r & w2 & new & Hrest & Hs & Hstop & (k & Hk & Hreq) & Hcfg
            & Hret).
      exists r, w2, (mkCall c (PostLinksByLinkUuidActions u a) true :: new).
      split.
      { apply (runs_bind_returned _ _ st x w1 [_] r w2 new); [|exact Hrest].
        unfold LinksApi_postLinksByLinkUuidActions.
        unfold runs. rewrite (through_facade _ this c) by exact Hb.
        exact Hrun. }
      repeat split; try assumption.
      * cbn. discriminate.
      * exists (S k). split; [cbn; lia|]. cbn. now rewrite Hreq.
      * constructor; [reflexivity | assumption].
      * constructor; [reflexivity | now apply (Hret a0)].
      * cbn. f_equal. now apply (Hret a0).
    + exists (Threw e), w1, [mkCall c (PostLinksByLinkUuidActions u a) false].
      split.
      { apply runs_bind_threw.
        unfold LinksApi_postLinksByLinkUuidActions.
        unfold runs. rewrite (through_facade _ this c) by exact Hb.
        exact Hrun. }
      repeat split; try discriminate.
      * exists 1. split; [cbn; lia|]. cbn. now rewrite take_0.
      * repeat constructor.
Qed.

Lemma step4_eq st this options c o u :
  ready (heap st) this options c o ->
  step4_actions remote this options u st =
    for_of (supplied_actions o) (fun action =>
      bind (this_links this) (fun api =>
        LinksApi_postLinksByLinkUuidActions remote api u action)) st.
Proof.
  intros [Hb Ho]. unfold step4_actions, read_Options, supplied_actions.
  unfold bind at 1 2. unfold read at 1. rewrite Ho. unfold ret at 1.
  now destruct (actions o) as [[|a acts]|].
Qed.

Lemma action_bodies_of_requests u new acts :
  map call_request new = map (PostLinksByLinkUuidActions u) acts ->
  action_bodies new = acts.
Proof.
  revert acts. induction new as [|x new IH]; intros [|a acts] H;
    try discriminate; [reflexivity|].
  cbn in H. injection H as Hx Hrest.
  unfold action_bodies in *. cbn. rewrite Hx. cbn. f_equal. now apply IH.
Qed.

Lemma orderly_seq {A} acts (r : Outcome A) n1 n2 :
  all_resolved n1 -> action_bodies n1 = [] ->
  orderly acts r n2 -> orderly acts r (n1 ++ n2).
Proof.
  intros H1 Hb (Hs & Hstop & [k Hk] & Hres). repeat split.
  - assumption.
  - now apply stops_at_rejection_app.
  - exists k. now rewrite action_bodies_app, Hb.
  - apply Forall_app. split; [assumption | now apply (Hres a)].
  - rewrite action_bodies_app, Hb. now apply (Hres a).
Qed.

Lemma orderly_threw {A B} acts e e' new :
  orderly (A := A) acts (Threw e) new -> orderly (A := B) acts (Threw e') new.
Proof.
  intros (_ & Hstop & Hk & _). repeat split; try assumption; discriminate.
Qed.

(** ** The steps after link creation *)

(** Steps 2 and 3 either return after at most one resolved call, or throw
    after exactly one rejected call; neither is an action call. *)
Lemma step2_runs st this options c o u :
  ready (heap st) this options c o ->
  (exists w' new, runs (step2_toll remote this options u) st (Returned tt) w' new /\
     all_resolved new /\ action_bodies new = []) \/
  (exists e w' rq, is_action rq = false /\
     runs (step2_toll remote this options u) st (Threw e) w' [mkCall c rq false]).
Proof.
  intros Hr. unfold runs. rewrite (step2_eq st this options c o u Hr).
  destruct (toll o) as [t|].
  - destruct (runs_invoke c (PostLinksByLinkUuidTolls u t)
                (remote_postTolls remote c u t) st)
      as [([] & w' & _ & Hrun) | (e & w' & _ & Hrun)].
    + left. exists w', [mkCall c (PostLinksByLinkUuidTolls u t) true].
      repeat split; [exact Hrun | repeat constructor].
    + right. now exists e, w', (PostLinksByLinkUuidTolls u t).
  - left. exists (world st), []. repeat split; [apply runs_ret | constructor].
Qed.

Lemma step3_runs st this options c o u :
  ready (heap st) this options c o ->
  (exists w' new, runs (step3_resource remote this options u) st (Returned tt) w' new /\
     all_resolved new /\ action_bodies new = []) \/
  (exists e w' rq, is_action rq = false /\
     runs (step3_resource remote this options u) st (Threw e) w' [mkCall c rq false]).
Proof.
  intros Hr. unfold runs. rewrite (step3_eq st this options c o u Hr).
  destruct (resource o) as [t|].
  - destruct (runs_invoke c (PostLinksByLinkUuidResources u t)
                (remote_postResources remote c u t) st)
      as [([] & w' & _ & Hrun) | (e & w' & _ & Hrun)].
    + left. exists w', [mkCall c (PostLinksByLinkUuidResources u t) true].
      repeat split; [exact Hrun | repeat constructor].
    + right. now exists e, w', (PostLinksByLinkUuidResources u t).
  - left. exists (world st), []. repeat split; [apply runs_ret | constructor].
Qed.

Lemma step5_runs st this c u :
  links_bound (heap st) this c ->
  exists r w' new,
    runs (step5_readback remote this u) st r w' new /\
    orderly [] r new /\ action_bodies new = [].
Proof.
  intros Hb. unfold runs. rewrite (step5_eq st this c u Hb).
  destruct (runs_invoke c (GetLinksByUuidOrAlias u)
              (remote_getLink remote c u) st)
    as [(l & w' & _ & Hrun) | (e & w' & _ & Hrun)].
  - exists (Returned l), w', [mkCall c (GetLinksByUuidOrAlias u) true].
    split; [exact Hrun|]. repeat split; try discriminate.
    + now exists 0.
    + repeat constructor.
  - exists (Threw e), w', [mkCall c (GetLinksByUuidOrAlias u) false].
    split; [exact Hrun|]. split; [now apply orderly_rejected | reflexivity].
Qed.

Lemma steps_4_5_run st this options c o u :
  ready (heap st) this options c o ->
  exists r w' new,
    runs (bind (step4_actions remote this options u)
            (fun _ => step5_readback remote this u)) st r w' new /\
    orderly (supplied_actions o) r new.
Proof.
  intros Hr. pose proof Hr as [Hb _].
  destruct (loop_runs st this c u (supplied_actions o) Hb)
    as (r4 & w4 & n4 & Hrun4 & Hs & Hstop & (k & _ & Hk) & _ & Hret).
  unfold runs in Hrun4. rewrite <- (step4_eq st this options c o u Hr) in Hrun4.
  destruct r4 as [[]|e|]; [| |congruence].
  - destruct (Hret tt eq_refl) as [Hall Hreq].
    destruct (step5_runs (mkState (heap st) w4 (calls st ++ n4)) this c u Hb)
      as (r & w' & n5 & Hrun5 & (Hs5 & Hstop5 & _ & Hres5) & Hn5).
    exists r, w', (n4 ++ n5).
    split; [now apply (runs_bind_returned _ _ st tt w4 n4)|].
    repeat split.
    + assumption.
    + now apply stops_at_rejection_app.
    + exists (length (supplied_actions o)).
      rewrite action_bodies_app, Hn5, app_nil_r, firstn_all.
      now apply (action_bodies_of_requests u).
    + apply Forall_app. split; [assumption | now apply (Hres5 a)].
    + rewrite action_bodies_app, Hn5, app_nil_r.
      now apply (action_bodies_of_requests u).
  - exists (Threw e), w4, n4.
    split; [now apply runs_bind_threw|].
    repeat split; try discriminate; [assumption|].
    exists k. now apply (action_bodies_of_requests u).
Qed.

Lemma steps_2_5_run st this options c o u :
  ready (heap st) this options c o ->
  exists r w' new,
    runs (bind (step2_toll remote this options u) (fun _ =>
          bind (step3_resource remote this options u) (fun _ =>
          bind (step4_actions remote this options u) (fun _ =>
          step5_readback remote this u)))) st r w' new /\
    orderly (supplied_actions o) r new.
Proof.
  intros Hr.
  destruct (step2_runs st this options c o u Hr)
    as [(w2 & n2 & Hrun2 & Hall2 & Hb2) | (e & w2 & rq & Hrq & Hrun2)].
  2:{ exists (Threw e), w2, [mkCall c rq false].
      split; [now apply runs_bind_threw | now apply orderly_rejected]. }
  set (st2 := mkState (heap st) w2 (calls st ++ n2)).
  destruct (step3_runs st2 this options c o u Hr)
    as [(w3 & n3 & Hrun3 & Hall3 & Hb3) | (e & w3 & rq & Hrq & Hrun3)].
  2:{ exists (Threw e), w3, (n2 ++ [mkCall c rq false]).
      split.
      - apply (runs_bind_returned _ _ st tt w2 n2); [exact Hrun2|].
        now apply runs_bind_threw.
      - apply orderly_seq; try assumption. now apply orderly_rejected. }
  set (st3 := mkState (heap st2) w3 (calls st2 ++ n3)).
  destruct (steps_4_5_run st3 this options c o u Hr)
    as (r & w' & n45 & Hrun45 & Hord).
  exists r, w', (n2 ++ n3 ++ n45). split.
  - apply (runs_bind_returned _ _ st tt w2 n2); [exact Hrun2|].
    apply (runs_bind_returned _ _ st2 tt w3 n3); [exact Hrun3|].
    exact Hrun45.
  - apply orderly_seq; try assumption. now apply orderly_seq.
Qed.

(** ** Every run of [createLink] *)

Lemma createLink_runs st this options c o :
  ready (heap st) this options c o ->
  exists r w' ok rest,
    createLink remote this options st =
      (r, mkState (heap st ++ [ObjOptions (stripped o)]) w'
            (calls st ++ mkCall c (PostLinks (stripped o)) ok :: rest)) /\
    orderly (supplied_actions o) r
      (mkCall c (PostLinks (stripped o)) ok :: rest).
Proof.
  intros Hr. unfold createLink, try_catch, createLink_body.
  unfold bind at 1. rewrite (step1_eq st this options c o Hr).
  set (st0 := mkState (heap st ++ [ObjOptions (stripped o)]) (world st)
                (calls st)).
  assert (Hr0 : ready (heap st0) this options c o) by now apply ready_app.
  destruct (runs_invoke c (PostLinks (stripped o))
              (remote_postLinks remote c (stripped o)) st0)
    as [(created & w1 & _ & Hrun) | (e & w1 & _ & Hrun)];
    unfold runs in Hrun; rewrite Hrun; clear Hrun.
  - destruct (truthy (uuid created)); cbn [negb].
    + set (st1 := mkState (heap st0) w1
                    (calls st0 ++ [mkCall c (PostLinks (stripped o)) true])).
      destruct (steps_2_5_run st1 this options c o
                  (default "" (uuid created)) Hr0)
        as (r & w' & new & Hrun & Hord).
      unfold runs in Hrun. rewrite Hrun. cbn [heap calls st1 st0].
      rewrite <- app_assoc. cbn [app].
      destruct r as [l|e|].
      * exists (Returned l), w', true, new. split; [reflexivity|].
        now apply orderly_after_resolved.
      * eexists (Threw _), w', true, new. split; [reflexivity|].
        apply orderly_after_resolved; [reflexivity|].
        now apply (orderly_threw (A := Link) _ e).
      * now destruct Hord as [? _].
    + eexists (Threw _), w1, true, []. split; [reflexivity|].
      repeat split; try discriminate.
      exists 0. now rewrite take_0.
  - eexists (Threw _), w1, false, []. split; [reflexivity|].
    now apply orderly_rejected.
Qed.

Lemma truthy_nonempty u : nonempty u -> truthy (Some u) = true.
Proof. unfold nonempty. now destruct u. Qed.

Lemma falsy_uuid (l : Link) :
  uuid l = None \/ uuid l = Some "" -> truthy (uuid l) = false.
Proof. now intros [-> | ->]. Qed.

Lemma plain_only_no_actions o : plain_only o -> supplied_actions o = [].
Proof. unfold supplied_actions. now intros (_ & _ & [-> | ->]). Qed.

Lemma action_calls_length log :
  length (action_calls log) = length (action_bodies log).
Proof.
  unfold action_calls, action_bodies.
  induction log as [|x log IH]; [reflexivity|].
  rewrite filter_cons. cbn.
  destruct (call_request x); cbn; case_decide as Hd; cbn in Hd;
    try discriminate; try (exfalso; now apply Hd); cbn; now rewrite IH.
Qed.

Lemma rejection_is_last (P : Call -> Prop) `{forall x, Decision (P x)}
    log first others :
  stops_at_rejection log ->
  filter P log = first :: others ->
  call_resolved first = false -> others = [].
Proof.
  induction log as [|x log IH]; intros Hstop Hf Hrej; [discriminate|].
  destruct Hstop as [Hx Hstop]. rewrite filter_cons in Hf.
  destruct (decide (P x)).
  - injection Hf as -> Hothers. rewrite (Hx Hrej) in Hothers.
    now rewrite <- Hothers.
  - now apply IH.
Qed.

(** ** The composite creation *)

(** C1, amended. With plain link fields only, and a remote service whose
    creation returns a non-empty uuid [u] and whose read-back of [u]
    resolves, [createLink] makes exactly one link-creation call and exactly
    one read-back call keyed by [u], no toll, resource or action call, and
    returns the Link the read-back answered with, whatever uuid that Link
    carries: [createLink] does not compare it with the created one. *)
Theorem createLink_plain_only
    st this options c o created u w1 complete w2 :
  ready (heap st) this options c o ->
  plain_only o ->
  remote_postLinks remote c (stripped o) (world st) = (inr created, w1) ->
  uuid created = Some u ->
  nonempty u ->
  remote_getLink remote c u w1 = (inr complete, w2) ->
  let new := [mkCall c (PostLinks (stripped o)) true;
              mkCall c (GetLinksByUuidOrAlias u) true] in
  createLink remote this options st =
    (Returned complete,
     mkState (heap st ++ [ObjOptions (stripped o)]) w2 (calls st ++ new)) /\
  count_calls is_postLinks new = 1 /\
  count_calls is_toll new = 0 /\
  count_calls is_resource new = 0 /\
  count_calls is_action new = 0 /\
  count_calls is_readback new = 1.
Proof.
  intros Hr Hplain Hpost Hu Hne Hget new.
  split; [|repeat split].
  pose proof Hplain as (Htoll & Hres & _).
  set (st0 := mkState (heap st ++ [ObjOptions (stripped o)]) (world st)
                (calls st)).
  assert (Hr0 : ready (heap st0) this options c o) by now apply ready_app.
  unfold createLink, try_catch, createLink_body.
  unfold bind at 1. rewrite (step1_eq st this options c o Hr).
  rewrite (invoke_resolved c _ _ st0 created w1 Hpost).
  rewrite Hu, (truthy_nonempty u Hne). cbn [negb default heap calls st0].
  unfold bind at 1. rewrite (step2_eq _ this options c o u) by exact Hr0.
  rewrite Htoll.
  unfold bind at 1. rewrite (step3_eq _ this options c o u) by exact Hr0.
  rewrite Hres.
  unfold bind at 1. rewrite (step4_eq _ this options c o u) by exact Hr0.
  rewrite (plain_only_no_actions o Hplain). cbn [for_of]. unfold ret at 1.
  rewrite (step5_eq _ this c u) by exact (proj1 Hr0).
  rewrite (invoke_resolved c (GetLinksByUuidOrAlias u)
             (remote_getLink remote c u) (mkState _ w1 _) complete w2 Hget).
  cbn [heap calls]. now rewrite <- app_assoc.
Qed.

(** C2. Whatever the options, when link creation resolves with a response
    whose uuid is absent or empty, [createLink] throws the
    "no UUID returned" error and makes no further remote call: the log
    gains the creation call only and the server is left as creation left
    it. *)
Theorem createLink_missing_uuid st this options c o created w1 :
  ready (heap st) this options c o ->
  remote_postLinks remote c (stripped o) (world st) = (inr created, w1) ->
  uuid created = None \/ uuid created = Some "" ->
  createLink remote this options st =
    (Threw (new_Error
              (failure_prefix +:+ "Failed to create link: no UUID returned")),
     mkState (heap st ++ [ObjOptions (stripped o)]) w1
       (calls st ++ [mkCall c (PostLinks (stripped o)) true])).
Proof.
  intros Hr Hpost Hfalsy.
  unfold createLink, try_catch, createLink_body.
  unfold bind at 1. rewrite (step1_eq st this options c o Hr).
  rewrite (invoke_resolved c _ _ (mkState _ (world st) (calls st))
             created w1 Hpost).
  now rewrite (falsy_uuid created Hfalsy).
Qed.

(** C3. When a toll is supplied, link creation has resolved with uuid [u]
    and the toll-creation call rejects, [createLink] throws; the log gains
    exactly the resolved creation call and the rejected toll call, so no
    resource, action or read-back call is made and no compensating call
    either: the server is left in the state the toll call left it in. *)
Theorem createLink_toll_rejected
    st this options c o t created u w1 e w2 :
  ready (heap st) this options c o ->
  toll o = Some t ->
  remote_postLinks remote c (stripped o) (world st) = (inr created, w1) ->
  uuid created = Some u ->
  nonempty u ->
  remote_postTolls remote c u t w1 = (inl e, w2) ->
  let new := [mkCall c (PostLinks (stripped o)) true;
              mkCall c (PostLinksByLinkUuidTolls u t) false] in
  createLink remote this options st =
    (Threw (new_Error (failure_prefix +:+ message_or_unknown e)),
     mkState (heap st ++ [ObjOptions (stripped o)]) w2 (calls st ++ new)) /\
  count_calls is_postLinks new = 1 /\
  count_calls is_toll new = 1 /\
  count_calls is_resource new = 0 /\
  count_calls is_action new = 0 /\
  count_calls is_readback new = 0.
Proof.
  intros Hr Htoll Hpost Hu Hne Hrej new.
  split; [|repeat split].
  set (st0 := mkState (heap st ++ [ObjOptions (stripped o)]) (world st)
                (calls st)).
  assert (Hr0 : ready (heap st0) this options c o) by now apply ready_app.
  unfold createLink, try_catch, createLink_body.
  unfold bind at 1. rewrite (step1_eq st this options c o Hr).
  rewrite (invoke_resolved c _ _ st0 created w1 Hpost).
  rewrite Hu, (truthy_nonempty u Hne). cbn [negb default heap calls st0].
  unfold bind at 1. rewrite (step2_eq _ this options c o u) by exact Hr0.
  rewrite Htoll.
  rewrite (invoke_rejected c (PostLinksByLinkUuidTolls u t)
             (remote_postTolls remote c u t) (mkState _ w1 _) e w2 Hrej).
  cbn [heap calls]. now rewrite <- app_assoc.
Qed.

(** C9. [createLink] leaves the caller's options object as it was, whether
    it returns or throws: every object of the heap keeps its content, the
    step-1 request is a fresh object, a copy of the plain fields in which
    toll, resource and actions are undefined, and it is that copy that the
    creation call sends. *)
Theorem createLink_leaves_options st this options c o :
  ready (heap st) this options c o ->
  let st' := snd (createLink remote this options st) in
  heap st' !! options = Some (ObjOptions o) /\
  (forall p x, heap st !! p = Some x -> heap st' !! p = Some x) /\
  heap st' !! length (heap st) = Some (ObjOptions (stripped o)) /\
  length (heap st) <> options /\
  plain (stripped o) = plain o /\
  toll (stripped o) = None /\
  resource (stripped o) = None /\
  actions (stripped o) = None /\
  exists ok rest,
    calls st' = calls st ++ mkCall c (PostLinks (stripped o)) ok :: rest.
Proof.
  intros Hr st'.
  destruct (createLink_runs st this options c o Hr)
    as (r & w' & ok & rest & Heq & _).
  subst st'. rewrite Heq. cbn [snd heap calls].
  destruct (ready_distinct _ _ _ _ _ Hr) as [Hlt _].
  repeat split.
  - apply lookup_app_l_Some, Hr.
  - intros p x. apply lookup_app_l_Some.
  - now apply list_lookup_middle.
  - lia.
  - now exists ok, rest.
Qed.

(** C10. Whatever [createLink] throws is a plain [Error] (no status, no
    cause) whose message starts with "Failed to create link: "; this
    includes a rejected link-creation call of step 1; and when creation
    returns no uuid the message carries the prefix twice. *)
Theorem createLink_errors_prefixed :
  (forall st this options e st',
     createLink remote this options st = (Threw e, st') ->
     exists m, e = ErrorObject (failure_prefix +:+ m) None None) /\
  (forall st this options c o e w1,
     ready (heap st) this options c o ->
     remote_postLinks remote c (stripped o) (world st) = (inl e, w1) ->
     fst (createLink remote this options st) =
       Threw (ErrorObject (failure_prefix +:+ message_or_unknown e)
                None None)) /\
  (forall st this options c o created w1,
     ready (heap st) this options c o ->
     remote_postLinks remote c (stripped o) (world st) = (inr created, w1) ->
     truthy (uuid created) = false ->
     fst (createLink remote this options st) =
       Threw (ErrorObject
                "Failed to create link: Failed to create link: no UUID returned"
                None None)).
Proof.
  split; [|split].
  - intros st this options e st'. unfold createLink, try_catch, throw.
    destruct (createLink_body remote this options st) as [[l|e0|] st0];
      intros H; try discriminate.
    injection H as <- _. now exists (message_or_unknown e0).
  - intros st this options c o e w1 Hr Hpost.
    unfold createLink, try_catch, createLink_body.
    unfold bind at 1. rewrite (step1_eq st this options c o Hr).
    now rewrite (invoke_rejected c _ _ (mkState _ (world st) (calls st))
                   e w1 Hpost).
  - intros st this options c o created w1 Hr Hpost Hfalsy.
    unfold createLink, try_catch, createLink_body.
    unfold bind at 1. rewrite (step1_eq st this options c o Hr).
    rewrite (invoke_resolved c _ _ (mkState _ (world st) (calls st))
               created w1 Hpost).
    now rewrite Hfalsy.
Qed.

(** ** Rebinding the sub-clients *)

Lemma bind_eq {A B} (m : M W A) (k : A -> M W B) st a st1 :
  m st = (Returned a, st1) -> bind m k st = k a st1.
Proof. unfold bind. now intros ->. Qed.

(** While an update runs, the heap is the initial one with the façade
    object overwritten, followed by the objects allocated so far. *)
Lemma read_Gatepay_inserted h tl this g (w : W) log :
  this < length h ->
  read_Gatepay this (mkState (<[this := ObjGatepay g]> h ++ tl) w log) =
    (Returned g, mkState (<[this := ObjGatepay g]> h ++ tl) w log).
Proof.
  intros Hlt. unfold read_Gatepay, bind, read. cbn.
  rewrite lookup_app_l by (rewrite length_insert; lia).
  now rewrite list_lookup_insert_eq by lia.
Qed.

Lemma this_configuration_inserted h tl this g (w : W) log :
  this < length h ->
  this_configuration this (mkState (<[this := ObjGatepay g]> h ++ tl) w log) =
    (Returned (configuration g),
     mkState (<[this := ObjGatepay g]> h ++ tl) w log).
Proof.
  intros Hlt. unfold this_configuration.
  now rewrite (bind_eq _ _ _ _ _ (read_Gatepay_inserted h tl this g w log Hlt)).
Qed.

Lemma write_inserted h tl this x y (w : W) log :
  this < length h ->
  write this y (mkState (<[this := x]> h ++ tl) w log) =
    (Returned tt, mkState (<[this := y]> h ++ tl) w log).
Proof.
  intros Hlt. unfold write. cbn.
  rewrite insert_app_l by (rewrite length_insert; lia).
  now rewrite list_insert_insert_eq.
Qed.

Lemma alloc_inserted h tl this x ob (w : W) log :
  alloc ob (mkState (<[this := x]> h ++ tl) w log) =
    (Returned (length h + length tl),
     mkState (<[this := x]> h ++ (tl ++ [ob])) w log).
Proof.
  unfold alloc. cbn. now rewrite length_app, length_insert, app_assoc.
Qed.

Lemma set_configuration_inserted h tl this g p (w : W) log :
  this < length h ->
  set_configuration this p
    (mkState (<[this := ObjGatepay g]> h ++ tl) w log) =
    (Returned tt,
     mkState (<[this := ObjGatepay
                  (mkGatepay p (account g) (links g) (networks g))]> h ++ tl)
       w log).
Proof.
  intros Hlt. unfold set_configuration.
  rewrite (bind_eq _ _ _ _ _ (read_Gatepay_inserted h tl this g w log Hlt)).
  now apply write_inserted.
Qed.

Lemma set_account_inserted h tl this g p (w : W) log :
  this < length h ->
  set_account this p (mkState (<[this := ObjGatepay g]> h ++ tl) w log) =
    (Returned tt,
     mkState (<[this := ObjGatepay
                  (mkGatepay (configuration g) p (links g) (networks g))]> h
              ++ tl) w log).
Proof.
  intros Hlt. unfold set_account.
  rewrite (bind_eq _ _ _ _ _ (read_Gatepay_inserted h tl this g w log Hlt)).
  now apply write_inserted.
Qed.

Lemma set_links_inserted h tl this g p (w : W) log :
  this < length h ->
  set_links this p (mkState (<[this := ObjGatepay g]> h ++ tl) w log) =
    (Returned tt,
     mkState (<[this := ObjGatepay
                  (mkGatepay (configuration g) (account g) p (networks g))]> h
              ++ tl) w log).
Proof.
  intros Hlt. unfold set_links.
  rewrite (bind_eq _ _ _ _ _ (read_Gatepay_inserted h tl this g w log Hlt)).
  now apply write_inserted.
Qed.

Lemma set_networks_inserted h tl this g p (w : W) log :
  this < length h ->
  set_networks this p (mkState (<[this := ObjGatepay g]> h ++ tl) w log) =
    (Returned tt,
     mkState (<[this := ObjGatepay
                  (mkGatepay (configuration g) (account g) (links g) p)]> h
              ++ tl) w log).
Proof.
  intros Hlt. unfold set_networks.
  rewrite (bind_eq _ _ _ _ _ (read_Gatepay_inserted h tl this g w log Hlt)).
  now apply write_inserted.
Qed.

Lemma alloc_bound_inserted h tl this g (mk : loc -> Object) (w : W) log :
  this < length h ->
  (let! p := this_configuration this in alloc (mk p))
    (mkState (<[this := ObjGatepay g]> h ++ tl) w log) =
    (Returned (length h + length tl),
     mkState (<[this := ObjGatepay g]> h ++ (tl ++ [mk (configuration g)]))
       w log).
Proof.
  intros Hlt.
  rewrite (bind_eq _ _ _ _ _ (this_configuration_inserted h tl this g w log Hlt)).
  apply alloc_inserted.
Qed.

(** The tail shared by the two update operations: once the new
    Configuration is allocated, rebind the four fields in source order. *)
Lemma rebind_eq h this g cfg (w : W) log :
  this < length h ->
  let n := length h in
  (do! set_configuration this n in
   let! a := (let! p := this_configuration this in alloc (ObjAccountApi p)) in
   do! set_account this a in
   let! l := (let! p := this_configuration this in alloc (ObjLinksApi p)) in
   do! set_links this l in
   let! k := (let! p := this_configuration this in alloc (ObjNetworksApi p)) in
   set_networks this k)
    (mkState (<[this := ObjGatepay g]> h ++ [ObjConfiguration cfg]) w log) =
  (Returned tt,
   mkState (<[this := ObjGatepay (mkGatepay n (n + 1) (n + 2) (n + 3))]> h ++
            [ObjConfiguration cfg; ObjAccountApi n; ObjLinksApi n;
             ObjNetworksApi n]) w log).
Proof.
  intros Hlt n.
  rewrite (bind_eq _ _ _ _ _ (set_configuration_inserted h _ this g n w log Hlt)).
  rewrite (bind_eq _ _ _ _ _
             (alloc_bound_inserted h _ this _ ObjAccountApi w log Hlt)).
  rewrite (bind_eq _ _ _ _ _ (set_account_inserted h _ this _ _ w log Hlt)).
  rewrite (bind_eq _ _ _ _ _
             (alloc_bound_inserted h _ this _ ObjLinksApi w log Hlt)).
  rewrite (bind_eq _ _ _ _ _ (set_links_inserted h _ this _ _ w log Hlt)).
  rewrite (bind_eq _ _ _ _ _
             (alloc_bound_inserted h _ this _ ObjNetworksApi w log Hlt)).
  rewrite (set_networks_inserted h _ this _ _ w log Hlt).
  reflexivity.
Qed.

Lemma read_current_configuration st this g old :
  heap st !! this = Some (ObjGatepay g) ->
  heap st !! configuration g = Some (ObjConfiguration old) ->
  (let! p := this_configuration this in read_Configuration p) st =
    (Returned old, st).
Proof.
  intros Hg Hc.
  unfold this_configuration, read_Configuration, read_Gatepay, bind, read, ret.
  rewrite Hg. cbn. now rewrite Hc.
Qed.

Lemma updateApiToken_eq st this g old t :
  heap st !! this = Some (ObjGatepay g) ->
  heap st !! configuration g = Some (ObjConfiguration old) ->
  let n := length (heap st) in
  updateApiToken this t st =
    (Returned tt,
     mkState
       (<[this := ObjGatepay (mkGatepay n (n + 1) (n + 2) (n + 3))]> (heap st)
        ++ [ObjConfiguration (mkConfiguration (basePath old) t);
            ObjAccountApi n; ObjLinksApi n; ObjNetworksApi n])
       (world st) (calls st)).
Proof.
  intros Hg Hc n. unfold updateApiToken.
  rewrite (bind_eq _ _ _ _ _ (read_current_configuration st this g old Hg Hc)).
  unfold bind at 1. unfold alloc at 1.
  assert (Hlt : this < length (heap st)) by (eapply lookup_lt_Some; eassumption).
  rewrite <- (list_insert_id (heap st) this (ObjGatepay g) Hg) at 2.
  now apply rebind_eq.
Qed.

Lemma updateBasePath_eq st this g old b :
  heap st !! this = Some (ObjGatepay g) ->
  heap st !! configuration g = Some (ObjConfiguration old) ->
  let n := length (heap st) in
  updateBasePath this b st =
    (Returned tt,
     mkState
       (<[this := ObjGatepay (mkGatepay n (n + 1) (n + 2) (n + 3))]> (heap st)
        ++ [ObjConfiguration (mkConfiguration b (accessToken old));
            ObjAccountApi n; ObjLinksApi n; ObjNetworksApi n])
       (world st) (calls st)).
Proof.
  intros Hg Hc n. unfold updateBasePath.
  rewrite (bind_eq _ _ _ _ _ (read_current_configuration st this g old Hg Hc)).
  unfold bind at 1. unfold alloc at 1.
  assert (Hlt : this < length (heap st)) by (eapply lookup_lt_Some; eassumption).
  rewrite <- (list_insert_id (heap st) this (ObjGatepay g) Hg) at 2.
  now apply rebind_eq.
Qed.

Lemma new_Gatepay_eq st (opts : GatepayClientOptions) :
  let n := length (heap st) in
  new_Gatepay opts st =
    (Returned (n + 4),
     mkState
       (heap st ++
        [ObjConfiguration
           (mkConfiguration
              (or_default (opt_basePath opts) default_basePath)
              (apiToken opts));
         ObjAccountApi n; ObjLinksApi n; ObjNetworksApi n;
         ObjGatepay (mkGatepay n (n + 1) (n + 2) (n + 3))])
       (world st) (calls st)).
Proof.
  intros n. unfold new_Gatepay, bind, alloc. cbn.
  rewrite !length_app. cbn. rewrite <- !app_assoc. cbn. fold n.
  replace (n + 1 + 1) with (n + 2) by lia.
  replace (n + 2 + 1) with (n + 3) by lia.
  replace (n + 3 + 1) with (n + 4) by lia.
  reflexivity.
Qed.

Lemma lookup_fresh h this x tl p k :
  p = length h + k -> (<[this := x]> h ++ tl) !! p = tl !! k.
Proof.
  intros ->. rewrite lookup_app_r by (rewrite length_insert; lia).
  f_equal. rewrite length_insert. lia.
Qed.

Lemma lookup_old h this x tl p ob :
  p <> this -> h !! p = Some ob -> (<[this := x]> h ++ tl) !! p = Some ob.
Proof.
  intros Hne Hp. apply lookup_app_l_Some.
  now rewrite list_lookup_insert_ne by congruence.
Qed.

Lemma lookup_this h this x tl :
  this < length h -> (<[this := x]> h ++ tl) !! this = Some x.
Proof.
  intros Hlt. apply lookup_app_l_Some. now apply list_lookup_insert_eq.
Qed.

Lemma invoke_logs {A} c rq (ep : W -> (JsThrown + A) * W) st :
  logs_call_with (invoke c rq ep) st c.
Proof.
  destruct (runs_invoke c rq ep st)
    as [(a & w' & _ & Hrun) | (e & w' & _ & Hrun)].
  - now exists (Returned a), w', rq, true.
  - now exists (Threw e), w', rq, false.
Qed.

Lemma facade_call_logs st this c u :
  links_bound (heap st) this c ->
  logs_call_with
    (let! a := this_links this in LinksApi_getLinksByUuidOrAlias remote a u)
    st c.
Proof.
  intros Hb. unfold logs_call_with, LinksApi_getLinksByUuidOrAlias.
  rewrite (through_facade st this c) by exact Hb. apply invoke_logs.
Qed.

Lemma handle_call_logs st api cl c u :
  heap st !! api = Some (ObjLinksApi cl) ->
  heap st !! cl = Some (ObjConfiguration c) ->
  logs_call_with (LinksApi_getLinksByUuidOrAlias remote api u) st c.
Proof.
  intros Ha Hc.
  assert (Hcfg : LinksApi_configuration api st = (Returned c, st)).
  { unfold LinksApi_configuration, read_Configuration, bind, read, ret.
    rewrite Ha. cbn. now rewrite Hc. }
  unfold logs_call_with, LinksApi_getLinksByUuidOrAlias.
  rewrite (bind_eq _ _ _ _ _ Hcfg). apply invoke_logs.
Qed.

(** C5. After [updateApiToken t] the façade holds a new Configuration with
    token [t] and the base path it had before; its three sub-client fields
    refer to fresh objects bound to that Configuration, so a call through
    the façade's Links sub-client runs with [t]; a Links sub-client
    reference taken before the update still refers to the same sub-client
    object, bound to the Configuration it had, and a call through it runs
    with that Configuration. *)
Theorem updateApiToken_rebinds st this g old api cl captured t :
  heap st !! this = Some (ObjGatepay g) ->
  heap st !! configuration g = Some (ObjConfiguration old) ->
  heap st !! api = Some (ObjLinksApi cl) ->
  heap st !! cl = Some (ObjConfiguration captured) ->
  exists st' g',
    updateApiToken this t st = (Returned tt, st') /\
    world st' = world st /\
    calls st' = calls st /\
    heap st' !! this = Some (ObjGatepay g') /\
    current_configuration (heap st') this =
      Some (mkConfiguration (basePath old) t) /\
    heap st' !! account g' = Some (ObjAccountApi (configuration g')) /\
    heap st' !! links g' = Some (ObjLinksApi (configuration g')) /\
    heap st' !! networks g' = Some (ObjNetworksApi (configuration g')) /\
    (length (heap st) <= configuration g' /\
     length (heap st) <= account g' /\
     length (heap st) <= links g' /\
     length (heap st) <= networks g') /\
    (forall u,
       logs_call_with
         (let! a := this_links this in
          LinksApi_getLinksByUuidOrAlias remote a u)
         st' (mkConfiguration (basePath old) t)) /\
    heap st' !! api = Some (ObjLinksApi cl) /\
    heap st' !! cl = Some (ObjConfiguration captured) /\
    (forall u,
       logs_call_with (LinksApi_getLinksByUuidOrAlias remote api u) st'
         captured).
Proof.
  intros Hg Hc Ha Hcl.
  assert (Hlt : this < length (heap st)) by (eapply lookup_lt_Some; eassumption).
  assert (Hapi : api <> this) by (intros ->; congruence).
  assert (Hcl' : cl <> this) by (intros ->; congruence).
  rewrite (updateApiToken_eq st this g old t Hg Hc).
  set (n := length (heap st)).
  set (g' := mkGatepay n (n + 1) (n + 2) (n + 3)).
  set (tl := [ObjConfiguration (mkConfiguration (basePath old) t);
              ObjAccountApi n; ObjLinksApi n; ObjNetworksApi n]).
  assert (Hthis : (<[this := ObjGatepay g']> (heap st) ++ tl) !! this =
                  Some (ObjGatepay g')) by now apply lookup_this.
  assert (Hnew : (<[this := ObjGatepay g']> (heap st) ++ tl) !! n =
                 Some (ObjConfiguration (mkConfiguration (basePath old) t)))
    by (rewrite (lookup_fresh _ _ _ _ n 0); [reflexivity | lia]).
  assert (Hlinks : (<[this := ObjGatepay g']> (heap st) ++ tl) !! (n + 2) =
                   Some (ObjLinksApi n))
    by (rewrite (lookup_fresh _ _ _ _ (n + 2) 2); [reflexivity | lia]).
  assert (Hapi' : (<[this := ObjGatepay g']> (heap st) ++ tl) !! api =
                  Some (ObjLinksApi cl)) by now apply lookup_old.
  assert (Hcap : (<[this := ObjGatepay g']> (heap st) ++ tl) !! cl =
                 Some (ObjConfiguration captured)) by now apply lookup_old.
  eexists _, g'. split; [reflexivity|]. cbn [heap world calls].
  repeat split; try assumption; cbn [configuration account links networks g'];
    try lia.
  - unfold current_configuration. rewrite Hthis.
    change (configuration g') with n. now rewrite Hnew.
  - rewrite (lookup_fresh _ _ _ _ (n + 1) 1); [reflexivity | lia].
  - rewrite (lookup_fresh _ _ _ _ (n + 3) 3); [reflexivity | lia].
  - intros u. apply facade_call_logs. cbn. now exists g', n.
  - intros u. now apply (handle_call_logs _ api cl).
Qed.

(** C7. Built without a [basePath], the façade holds a Configuration whose
    base path is the production address, and [getConfiguration] returns
    the reference to that Configuration. *)
Theorem constructor_default_basePath st token :
  exists this cfg st',
    new_Gatepay (mkClientOptions token None) st = (Returned this, st') /\
    getConfiguration this st' = (Returned cfg, st') /\
    heap st' !! cfg =
      Some (ObjConfiguration
              (mkConfiguration "https://api.gatepay.cloud" token)) /\
    current_configuration (heap st') this =
      Some (mkConfiguration "https://api.gatepay.cloud" token).
Proof.
  rewrite new_Gatepay_eq. set (n := length (heap st)).
  eexists (n + 4), n, _. split; [reflexivity|]. cbn [heap].
  assert (H4 : forall (tl : list Object), (heap st ++ tl) !! (n + 4) = tl !! 4).
  { intros tl. rewrite lookup_app_r by lia. f_equal. lia. }
  assert (H0 : forall (tl : list Object), (heap st ++ tl) !! n = tl !! 0).
  { intros tl. rewrite lookup_app_r by lia. f_equal. lia. }
  repeat split.
  - unfold getConfiguration, this_configuration, read_Gatepay, bind, read, ret.
    cbn [heap]. now rewrite H4.
  - now rewrite H0.
  - unfold current_configuration. rewrite H4. cbn. now rewrite H0.
Qed.

End Facts.

(** ** Reachable configuration states *)

Section Reachable.

Context {W : Type}.

(** The façade at [this] holds a Configuration, and every Configuration of
    the heap has both fields non-empty. *)
Lemma update_keeps_valid (st : State W) this g old up :
  heap st !! this = Some (ObjGatepay g) ->
  heap st !! configuration g = Some (ObjConfiguration old) ->
  all_configurations_valid (heap st) ->
  nonempty (update_argument up) ->
  exists st' g' new,
    apply_update this up st = (Returned tt, st') /\
    heap st' !! this = Some (ObjGatepay g') /\
    heap st' !! configuration g' = Some (ObjConfiguration new) /\
    all_configurations_valid (heap st').
Proof.
  intros Hg Hc Hall Hne.
  assert (Hlt : this < length (heap st)) by (eapply lookup_lt_Some; eassumption).
  assert (Hold : valid_configuration old).
  { unfold all_configurations_valid in Hall. rewrite Forall_lookup in Hall.
    exact (Hall _ _ Hc). }
  destruct up as [t|b]; cbn [apply_update update_argument] in *.
  - rewrite (updateApiToken_eq st this g old t Hg Hc).
    set (n := length (heap st)).
    eexists _, (mkGatepay n (n + 1) (n + 2) (n + 3)), _.
    split; [reflexivity|]. cbn [heap configuration].
    split; [now apply lookup_this|].
    split; [rewrite (lookup_fresh _ _ _ _ n 0); [reflexivity | lia]|].
    apply Forall_app. split.
    + apply Forall_insert; [assumption | exact I].
    + repeat constructor; cbn; [apply Hold | assumption].
  - rewrite (updateBasePath_eq st this g old b Hg Hc).
    set (n := length (heap st)).
    eexists _, (mkGatepay n (n + 1) (n + 2) (n + 3)), _.
    split; [reflexivity|]. cbn [heap configuration].
    split; [now apply lookup_this|].
    split; [rewrite (lookup_fresh _ _ _ _ n 0); [reflexivity | lia]|].
    apply Forall_app. split.
    + apply Forall_insert; [assumption | exact I].
    + repeat constructor; cbn; [assumption | apply Hold].
Qed.

Lemma updates_keep_valid ups : forall (st : State W) this g old,
  heap st !! this = Some (ObjGatepay g) ->
  heap st !! configuration g = Some (ObjConfiguration old) ->
  all_configurations_valid (heap st) ->
  Forall (fun up => nonempty (update_argument up)) ups ->
  exists st' g' new,
    for_of ups (apply_update this) st = (Returned tt, st') /\
    heap st' !! this = Some (ObjGatepay g') /\
    heap st' !! configuration g' = Some (ObjConfiguration new) /\
    all_configurations_valid (heap st').
Proof.
  induction ups as [|up ups IH]; intros st this g old Hg Hc Hall Hne.
  - now exists st, g, old.
  - inversion Hne as [|? ? Hup Hups]; subst.
    destruct (update_keeps_valid st this g old up Hg Hc Hall Hup)
      as (st1 & g1 & c1 & Hrun & Hg1 & Hc1 & Hall1).
    destruct (IH st1 this g1 c1 Hg1 Hc1 Hall1 Hups)
      as (st' & g' & new & Hrun' & Hfinal).
    exists st', g', new. split; [|exact Hfinal].
    cbn [for_of]. now rewrite (bind_eq _ _ _ _ _ Hrun).
Qed.

End Reachable.

(** C8, as amended. Whatever [basePath] the constructor is given (none,
    empty or not), when its [apiToken] and the argument of every later
    update call are non-empty strings, every Configuration the façade has
    made has a non-empty base path and a non-empty token, the current one
    included. *)
Theorem configurations_stay_valid options ups :
  nonempty (apiToken options) ->
  Forall (fun up => nonempty (update_argument up)) ups ->
  exists this st' c,
    facade_after options ups = (Returned this, st') /\
    all_configurations_valid (heap st') /\
    current_configuration (heap st') this = Some c /\
    valid_configuration c.
Proof.
  intros Htoken Hups. unfold facade_after.
  rewrite (bind_eq _ _ _ _ _ (new_Gatepay_eq (mkState [] tt []) options)).
  cbn [heap world calls length Nat.add app].
  set (c0 := mkConfiguration
               (or_default (opt_basePath options) default_basePath)
               (apiToken options)).
  set (st0 := mkState _ tt []).
  assert (Hc0 : valid_configuration c0).
  { split; [|exact Htoken]. unfold c0, nonempty. cbn.
    now destruct (opt_basePath options) as [[|]|]. }
  assert (Hall0 : all_configurations_valid (heap st0))
    by (repeat (constructor; [first [exact Hc0 | exact I]|]); constructor).
  destruct (updates_keep_valid ups st0 4 (mkGatepay 0 1 2 3) c0
              eq_refl eq_refl Hall0 Hups)
    as (st' & g' & new & Hrun & Hg' & Hnew & Hall').
  exists 4, st', new.
  rewrite (bind_eq _ _ _ _ _ Hrun). split; [reflexivity|].
  split; [assumption|]. split.
  - unfold current_configuration. now rewrite Hg', Hnew.
  - unfold all_configurations_valid in Hall'. rewrite Forall_lookup in Hall'.
    exact (Hall' _ _ Hnew).
Qed.

(** C6. What the code does where a step after creation fails: the toll
    call rejects with an error of status 403, and the error [createLink]
    throws has the uniform message but no status and no cause, so the
    original error cannot be reached from it; a rejection with status 500
    and the same message surfaces as the very same error. *)
Theorem createLink_wrapper_drops_cause :
  let run s :=
    fst (createLink (Mock.server s) 4 5 (Mock.start Mock.with_toll)) in
  let surfaced :=
    ErrorObject "Failed to create link: Response returned an error code"
      None None in
  run Mock.toll_rejected = Threw surfaced /\
  run Mock.toll_rejected_500 = Threw surfaced /\
  thrown_status Mock.forbidden = Some 403%Z /\
  thrown_status surfaced = None /\
  ~ reachable_from Mock.forbidden surfaced.
Proof.
  cbv zeta. repeat split; try reflexivity.
  intros [H | []]. discriminate H.
Qed.

(** ** The theorems at work on the test double *)

Lemma mock_ready o :
  ready (heap (Mock.start o)) 4 5 Mock.production o.
Proof.
  split; [|reflexivity]. exists Mock.facade, 0. repeat split.
Defined.

Lemma createLink_plain_only_witness :
  fst (createLink (Mock.server Mock.all_ok) 4 5 (Mock.start Mock.just_name)) =
    Returned (Mock.link_of Mock.all_ok Mock.just_name) /\
  calls (snd (createLink (Mock.server Mock.all_ok) 4 5
                (Mock.start Mock.just_name))) =
    [mkCall Mock.production (PostLinks Mock.just_name) true;
     mkCall Mock.production (GetLinksByUuidOrAlias "u-1") true].
Proof.
  assert (Hne : nonempty "u-1") by (intros H; discriminate H).
  destruct
    (createLink_plain_only (Mock.server Mock.all_ok)
       (Mock.start Mock.just_name) 4 5 Mock.production Mock.just_name
       (Mock.link_of Mock.all_ok Mock.just_name) "u-1"
       [Mock.link_of Mock.all_ok Mock.just_name]
       (Mock.link_of Mock.all_ok Mock.just_name)
       [Mock.link_of Mock.all_ok Mock.just_name]
       (mock_ready Mock.just_name)
       (conj eq_refl (conj eq_refl (or_introl eq_refl)))
       eq_refl eq_refl Hne eq_refl) as [H _].
  rewrite H. split; reflexivity.
Defined.

Lemma createLink_missing_uuid_witness :
  createLink (Mock.server Mock.no_uuid) 4 5 (Mock.start Mock.with_toll) =
    (Threw (ErrorObject
              "Failed to create link: Failed to create link: no UUID returned"
              None None),
     mkState (Mock.heap_with Mock.with_toll ++
              [ObjOptions (stripped Mock.with_toll)])
       [Mock.link_of Mock.no_uuid Mock.with_toll]
       [mkCall Mock.production (PostLinks (stripped Mock.with_toll)) true]).
Proof.
  exact (createLink_missing_uuid (Mock.server Mock.no_uuid)
           (Mock.start Mock.with_toll) 4 5 Mock.production Mock.with_toll
           (Mock.link_of Mock.no_uuid Mock.with_toll)
           [Mock.link_of Mock.no_uuid Mock.with_toll]
           (mock_ready Mock.with_toll) eq_refl (or_introl eq_refl)).
Defined.

Lemma createLink_toll_rejected_witness :
  createLink (Mock.server Mock.toll_rejected) 4 5
    (Mock.start Mock.with_toll) =
    (Threw (ErrorObject
              "Failed to create link: Response returned an error code"
              None None),
     mkState (Mock.heap_with Mock.with_toll ++
              [ObjOptions (stripped Mock.with_toll)])
       [Mock.link_of Mock.toll_rejected Mock.with_toll]
       [mkCall Mock.production (PostLinks (stripped Mock.with_toll)) true;
        mkCall Mock.production (PostLinksByLinkUuidTolls "u-1" Mock.usdc)
          false]).
Proof.
  refine (proj1 (createLink_toll_rejected (Mock.server Mock.toll_rejected)
           (Mock.start Mock.with_toll) 4 5 Mock.production Mock.with_toll
           Mock.usdc (Mock.link_of Mock.toll_rejected Mock.with_toll) "u-1"
           [Mock.link_of Mock.toll_rejected Mock.with_toll] Mock.forbidden
           [Mock.link_of Mock.toll_rejected Mock.with_toll]
           (mock_ready Mock.with_toll) eq_refl eq_refl eq_refl _ eq_refl)).
  intros H. discriminate H.
Defined.

Lemma updateApiToken_rebinds_witness :
  exists st',
    updateApiToken 4 "t2" (Mock.start Mock.just_name) = (Returned tt, st') /\
    current_configuration (heap st') 4 =
      Some (mkConfiguration "https://api.gatepay.cloud" "t2") /\
    heap st' !! 2 = Some (ObjLinksApi 0) /\
    heap st' !! 0 = Some (ObjConfiguration Mock.production) /\
    logs_call_with
      (LinksApi_getLinksByUuidOrAlias (Mock.server Mock.all_ok) 2 "u-1") st'
      Mock.production.
Proof.
  destruct (updateApiToken_rebinds (Mock.server Mock.all_ok)
              (Mock.start Mock.just_name) 4 Mock.facade Mock.production
              2 0 Mock.production "t2" eq_refl eq_refl eq_refl eq_refl)
    as (st' & g' & Hrun & _ & _ & _ & Hcur & _ & _ & _ & _ & _ & Hapi & Hcl
        & Hold).
  exists st'. repeat split; try assumption. apply Hold.
Defined.

Lemma createLink_leaves_options_witness :
  heap (snd (createLink (Mock.server Mock.toll_rejected) 4 5
               (Mock.start Mock.with_toll))) !! 5 =
    Some (ObjOptions Mock.with_toll).
Proof.
  exact (proj1 (createLink_leaves_options (Mock.server Mock.toll_rejected)
                  (Mock.start Mock.with_toll) 4 5 Mock.production
                  Mock.with_toll (mock_ready Mock.with_toll))).
Defined.

Lemma createLink_errors_prefixed_witness :
  (exists m,
     ErrorObject "Failed to create link: Response returned an error code"
       None None = ErrorObject (failure_prefix +:+ m) None None) /\
  fst (createLink (Mock.server Mock.creation_rejected) 4 5
         (Mock.start Mock.just_name)) =
    Threw (ErrorObject
             "Failed to create link: Response returned an error code"
             None None) /\
  fst (createLink (Mock.server Mock.no_uuid) 4 5
         (Mock.start Mock.just_name)) =
    Threw (ErrorObject
             "Failed to create link: Failed to create link: no UUID returned"
             None None).
Proof.
  destruct (createLink_errors_prefixed (Mock.server Mock.creation_rejected))
    as (Hany & Hfirst & _).
  destruct (createLink_errors_prefixed (Mock.server Mock.no_uuid))
    as (_ & _ & Hnone).
  split; [|split].
  - exact (Hany (Mock.start Mock.just_name) 4 5 _ _ eq_refl).
  - exact (Hfirst (Mock.start Mock.just_name) 4 5 Mock.production
             Mock.just_name Mock.forbidden [] (mock_ready Mock.just_name)
             eq_refl).
  - exact (Hnone (Mock.start Mock.just_name) 4 5 Mock.production
             Mock.just_name (Mock.link_of Mock.no_uuid Mock.just_name)
             [Mock.link_of Mock.no_uuid Mock.just_name]
             (mock_ready Mock.just_name) eq_refl eq_refl).
Defined.

Lemma configurations_stay_valid_witness :
  exists this st' c,
    facade_after (mkClientOptions "t1" (Some ""))
      [UpdateApiToken "t2"; UpdateBasePath "https://staging.gatepay.cloud"] =
      (Returned this, st') /\
    all_configurations_valid (heap st') /\
    current_configuration (heap st') this = Some c /\
    valid_configuration c.
Proof.
  apply (configurations_stay_valid (mkClientOptions "t1" (Some ""))
           [UpdateApiToken "t2"; UpdateBasePath "https://staging.gatepay.cloud"]).
  - intros H. discriminate H.
  - repeat constructor; intros H; discriminate H.
Defined.

(** C1 as stated does not hold: the service hands out the uuid "u-1" at
    creation while it stores, from before, a Link of uuid "other-uuid"
    under the alias "u-1".  With plain link fields only, [createLink]
    makes its one creation call and its one read-back call keyed by
    "u-1", and returns that older Link: the uuid of the Link returned is
    not the uuid creation returned. *)
Lemma createLink_returns_another_uuid :
  plain_only Mock.just_name /\
  remote_postLinks (Mock.server Mock.all_ok) Mock.production
    (stripped Mock.just_name) (world AliasMock.start) =
    (inr (Mock.link_of Mock.all_ok Mock.just_name),
     [AliasMock.squatter; Mock.link_of Mock.all_ok Mock.just_name]) /\
  uuid (Mock.link_of Mock.all_ok Mock.just_name) = Some "u-1" /\
  createLink (Mock.server Mock.all_ok) 4 5 AliasMock.start =
    (Returned AliasMock.squatter,
     mkState (Mock.heap_with Mock.just_name ++
              [ObjOptions (stripped Mock.just_name)])
       [AliasMock.squatter; Mock.link_of Mock.all_ok Mock.just_name]
       [mkCall Mock.production (PostLinks (stripped Mock.just_name)) true;
        mkCall Mock.production (GetLinksByUuidOrAlias "u-1") true]) /\
  uuid AliasMock.squatter = Some "other-uuid" /\
  uuid AliasMock.squatter <> uuid (Mock.link_of Mock.all_ok Mock.just_name).
Proof.
  split; [exact (conj eq_refl (conj eq_refl (or_introl eq_refl)))|].
  repeat split. intros H. discriminate H.
Qed.

(** C8 as stated does not hold: an empty token given to the constructor or
    to [updateApiToken], or an empty address given to [updateBasePath], is
    stored as it is. *)
Lemma empty_arguments_are_stored :
  ~ all_configurations_valid
      (heap (snd (facade_after (mkClientOptions "" None) []))) /\
  ~ all_configurations_valid
      (heap (snd (facade_after (mkClientOptions "t1" None)
                    [UpdateApiToken ""]))) /\
  ~ all_configurations_valid
      (heap (snd (facade_after (mkClientOptions "t1" None)
                    [UpdateBasePath ""]))).
Proof.
  unfold all_configurations_valid. rewrite !Forall_lookup.
  split; [|split]; intros H.
  - destruct (H 0 (ObjConfiguration
                     (mkConfiguration "https://api.gatepay.cloud" ""))
                eq_refl) as [_ Hne].
    now apply Hne.
  - destruct (H 5 (ObjConfiguration
                     (mkConfiguration "https://api.gatepay.cloud" ""))
                eq_refl) as [_ Hne].
    now apply Hne.
  - destruct (H 5 (ObjConfiguration (mkConfiguration "" "t1")) eq_refl)
      as [Hne _].
    now apply Hne.
Qed.

(** * Further facts *)

(** ** The protocol of [createLink] *)

Section Protocol.

Context {W : Type}.
Variable remote : Remote W.

Implicit Types (st : State W) (c : Configuration) (o : CreateLinkOptions).

Lemma served_app c w n1 w1 n2 w2 :
  served remote c w n1 w1 -> served remote c w1 n2 w2 ->
  served remote c w (n1 ++ n2) w2.
Proof.
  revert w. induction n1 as [|x n1 IH]; intros w H1 H2; cbn in *.
  - now subst w1.
  - destruct H1 as [Hx H1]. split; [assumption | now apply IH].
Qed.

Lemma follow_up_split o u :
  follow_up_requests o u =
    sub_resource_requests o u ++ [GetLinksByUuidOrAlias u].
Proof.
  unfold follow_up_requests, sub_resource_requests.
  now rewrite <- !app_assoc.
Qed.

Lemma sub_resource_not_readback o u k :
  ~ In (GetLinksByUuidOrAlias k) (sub_resource_requests o u).
Proof.
  unfold sub_resource_requests. intros Hin.
  apply in_app_or in Hin as [Hin | Hin];
    [destruct (toll o); cbn in Hin; intuition discriminate|].
  apply in_app_or in Hin as [Hin | Hin];
    [destruct (resource o); cbn in Hin; intuition discriminate|].
  apply in_map_iff in Hin as (a & Ha & _). discriminate.
Qed.

Lemma protocol_run_nil c w :
  protocol_run remote c [] (fun _ : unit => True) w (Returned tt) [] w.
Proof.
  repeat split; try discriminate; try constructor.
  exists 0. now split.
Qed.

Lemma protocol_run_seq {A B} c r1 r2 (Q1 : A -> Prop) (Q : B -> Prop)
    (a : A) (r : Outcome B) w0 n1 w1 n2 w2 :
  protocol_run remote c r1 Q1 w0 (Returned a) n1 w1 ->
  protocol_run remote c r2 Q w1 r n2 w2 ->
  protocol_run remote c (r1 ++ r2) Q w0 r (n1 ++ n2) w2.
Proof.
  intros (_ & _ & Hc1 & Hsv1 & Hret1 & _)
         (Hs & (k & Hk & Hreq) & Hc2 & Hsv2 & Hret & Hthr).
  destruct (Hret1 a eq_refl) as (Hall1 & Hreq1 & _).
  assert (Hlen : length n1 = length r1)
    by now rewrite <- Hreq1, length_map.
  split; [assumption|]. split; [|split; [|split; [|split]]].
  - exists (length r1 + k). split; [rewrite length_app; lia|].
    now rewrite map_app, Hreq1, Hreq, take_app_add.
  - apply Forall_app. now split.
  - now apply (served_app c w0 n1 w1).
  - intros b Hb. destruct (Hret b Hb) as (Hall2 & Hreq2 & HQ).
    split; [apply Forall_app; now split|].
    split; [now rewrite map_app, Hreq1, Hreq2 | assumption].
  - intros e He.
    destruct (Hthr e He) as (done & last & w & -> & Hd & Hl & Hsd & Hw).
    exists (n1 ++ done), last, w. rewrite app_assoc.
    split; [reflexivity|]. split; [apply Forall_app; now split|].
    split; [assumption|].
    split; [now apply (served_app c w0 n1 w1) | assumption].
Qed.

Lemma protocol_run_stop {A B} c r1 r2 (Q1 : A -> Prop) (Q : B -> Prop)
    e w0 n1 w1 :
  protocol_run remote c r1 Q1 w0 (Threw e) n1 w1 ->
  protocol_run remote c (r1 ++ r2) Q w0 (Threw e) n1 w1.
Proof.
  intros (_ & (k & Hk & Hreq) & Hc1 & Hsv & _ & Hthr).
  split; [discriminate|]. split; [|split; [|split; [|split]]].
  - exists k. split; [rewrite length_app; lia|].
    now rewrite take_app_le.
  - assumption.
  - assumption.
  - discriminate.
  - intros e' He'. injection He' as <-. now apply Hthr.
Qed.

(** One remote operation is a run against the one-request sequence. *)
Lemma protocol_run_call {A} c rq (ep : W -> (JsThrown + A) * W) st :
  (forall w, rejection remote c rq w = thrown_of (fst (ep w))) ->
  (forall w, next_state remote c rq w = snd (ep w)) ->
  exists r w' new,
    runs (invoke c rq ep) st r w' new /\
    protocol_run remote c [rq] (fun a => exists w w1, ep w = (inr a, w1))
      (world st) r new w'.
Proof.
  intros Hrej Hnext.
  destruct (runs_invoke c rq ep st)
    as [(a & w' & Hep & Hrun) | (e & w' & Hep & Hrun)].
  - exists (Returned a), w', [mkCall c rq true]. split; [exact Hrun|].
    split; [discriminate|]. split; [exists 1; now split|].
    split; [repeat constructor|].
    split; [cbn; now rewrite Hrej, Hnext, Hep|].
    split; [|discriminate].
    intros a' Ha'. injection Ha' as <-.
    split; [repeat constructor|]. split; [reflexivity|].
    now exists (world st), w'.
  - exists (Threw e), w', [mkCall c rq false]. split; [exact Hrun|].
    split; [discriminate|]. split; [exists 1; now split|].
    split; [repeat constructor|].
    split; [cbn; now rewrite Hrej, Hnext, Hep|].
    split; [discriminate|].
    intros e' He'. injection He' as <-.
    exists [], (mkCall c rq false), (world st).
    split; [reflexivity|]. split; [constructor|]. split; [reflexivity|].
    split; [reflexivity|].
    cbn [call_request]. now rewrite Hrej, Hep.
Qed.

Lemma protocol_run_weaken {A} c reqs (Q Q' : A -> Prop) w0 r new w' :
  (forall a, Q a -> Q' a) ->
  protocol_run remote c reqs Q w0 r new w' ->
  protocol_run remote c reqs Q' w0 r new w'.
Proof.
  intros HQ (Hs & Hk & Hc & Hsv & Hret & Hthr).
  repeat split; try assumption; try now apply (Hret a).
  apply HQ. now apply (Hret a).
Qed.

Lemma step2_protocol st this options c o u :
  ready (heap st) this options c o ->
  exists r w' new,
    runs (step2_toll remote this options u) st r w' new /\
    protocol_run remote c
      match toll o with
      | Some t => [PostLinksByLinkUuidTolls u t]
      | None => []
      end (fun _ => True) (world st) r new w'.
Proof.
  intros Hr. unfold runs. rewrite (step2_eq remote st this options c o u Hr).
  destruct (toll o) as [t|].
  - destruct (protocol_run_call c (PostLinksByLinkUuidTolls u t)
                (remote_postTolls remote c u t) st
                (fun w => eq_refl) (fun w => eq_refl))
      as (r & w' & new & Hrun & Hp).
    exists r, w', new. split; [exact Hrun|].
    now apply (protocol_run_weaken _ _ _ _ _ _ _ _ (fun _ _ => I) Hp).
  - exists (Returned tt), (world st), [].
    split; [apply runs_ret | apply protocol_run_nil].
Qed.

Lemma step3_protocol st this options c o u :
  ready (heap st) this options c o ->
  exists r w' new,
    runs (step3_resource remote this options u) st r w' new /\
    protocol_run remote c
      match resource o with
      | Some x => [PostLinksByLinkUuidResources u x]
      | None => []
      end (fun _ => True) (world st) r new w'.
Proof.
  intros Hr. unfold runs. rewrite (step3_eq remote st this options c o u Hr).
  destruct (resource o) as [x|].
  - destruct (protocol_run_call c (PostLinksByLinkUuidResources u x)
                (remote_postResources remote c u x) st
                (fun w => eq_refl) (fun w => eq_refl))
      as (r & w' & new & Hrun & Hp).
    exists r, w', new. split; [exact Hrun|].
    now apply (protocol_run_weaken _ _ _ _ _ _ _ _ (fun _ _ => I) Hp).
  - exists (Returned tt), (world st), [].
    split; [apply runs_ret | apply protocol_run_nil].
Qed.

Lemma loop_protocol acts : forall st this c u,
  links_bound (heap st) this c ->
  exists r w' new,
    runs (for_of acts (fun action =>
            bind (this_links this) (fun api =>
              LinksApi_postLinksByLinkUuidActions remote api u action)))
      st r w' new /\
    protocol_run remote c (map (PostLinksByLinkUuidActions u) acts)
      (fun _ => True) (world st) r new w'.
Proof.
  induction acts as [|a rest IH]; intros st this c u Hb.
  - exists (Returned tt), (world st), [].
    split; [apply runs_ret | apply protocol_run_nil].
  - cbn [for_of map].
    destruct (protocol_run_call c (PostLinksByLinkUuidActions u a)
                (remote_postActions remote c u a) st
                (fun w => eq_refl) (fun w => eq_refl))
      as (r1 & w1 & n1 & Hrun1 & Hp1).
    assert (Hbody : runs (bind (this_links this) (fun api =>
                       LinksApi_postLinksByLinkUuidActions remote api u a))
                      st r1 w1 n1).
    { unfold runs, LinksApi_postLinksByLinkUuidActions.
      rewrite (through_facade st this c) by exact Hb. exact Hrun1. }
    destruct r1 as [[]|e|]; [| |now destruct Hp1 as [? _]].
    + destruct (IH (mkState (heap st) w1 (calls st ++ n1)) this c u Hb)
        as (r & w' & n2 & Hrun2 & Hp2).
      exists r, w', (n1 ++ n2).
      split; [now apply (runs_bind_returned _ _ st tt w1 n1)|].
      now apply (protocol_run_seq c [_] _ _ _ tt r _ n1 w1 n2 w' Hp1).
    + exists (Threw e), w1, n1.
      split; [now apply runs_bind_threw|].
      now apply (protocol_run_stop c [_] _ _ _ e _ n1 w1 Hp1).
Qed.

Lemma step4_protocol st this options c o u :
  ready (heap st) this options c o ->
  exists r w' new,
    runs (step4_actions remote this options u) st r w' new /\
    protocol_run remote c
      (map (PostLinksByLinkUuidActions u) (supplied_actions o))
      (fun _ => True) (world st) r new w'.
Proof.
  intros Hr. unfold runs. rewrite (step4_eq remote st this options c o u Hr).
  apply loop_protocol, Hr.
Qed.

Lemma step5_protocol st this c u :
  links_bound (heap st) this c ->
  exists r w' new,
    runs (step5_readback remote this u) st r w' new /\
    protocol_run remote c [GetLinksByUuidOrAlias u]
      (fun l => exists w w1, remote_getLink remote c u w = (inr l, w1))
      (world st) r new w'.
Proof.
  intros Hb. unfold runs. rewrite (step5_eq remote st this c u Hb).
  exact (protocol_run_call c (GetLinksByUuidOrAlias u)
           (remote_getLink remote c u) st
           (fun w => eq_refl) (fun w => eq_refl)).
Qed.

(** Sequencing a step of the protocol with the steps that follow it. *)
Lemma protocol_then {B} st c (m : M W unit) (k : M W B) r1 r2
    (Q : B -> Prop) :
  (exists r w' new, runs m st r w' new /\
     protocol_run remote c r1 (fun _ => True) (world st) r new w') ->
  (forall st1, heap st1 = heap st ->
     exists r w' new, runs k st1 r w' new /\
       protocol_run remote c r2 Q (world st1) r new w') ->
  exists r w' new,
    runs (bind m (fun _ => k)) st r w' new /\
    protocol_run remote c (r1 ++ r2) Q (world st) r new w'.
Proof.
  intros (r & w1 & n1 & Hrun1 & Hp1) Hk.
  destruct r as [[]|e|]; [| |now destruct Hp1 as [? _]].
  - destruct (Hk (mkState (heap st) w1 (calls st ++ n1)) eq_refl)
      as (r & w' & n2 & Hrun2 & Hp2).
    exists r, w', (n1 ++ n2).
    split; [now apply (runs_bind_returned _ _ st tt w1 n1)|].
    now apply (protocol_run_seq c r1 r2 _ _ tt r _ n1 w1 n2 w' Hp1).
  - exists (Threw e), w1, n1.
    split; [now apply runs_bind_threw|].
    now apply (protocol_run_stop c r1 r2 _ _ e _ n1 w1 Hp1).
Qed.

Lemma follow_up_protocol st this options c o u :
  ready (heap st) this options c o ->
  exists r w' new,
    runs (bind (step2_toll remote this options u) (fun _ =>
          bind (step3_resource remote this options u) (fun _ =>
          bind (step4_actions remote this options u) (fun _ =>
          step5_readback remote this u)))) st r w' new /\
    protocol_run remote c (follow_up_requests o u)
      (fun l => exists w w1, remote_getLink remote c u w = (inr l, w1))
      (world st) r new w'.
Proof.
  intros Hr. unfold follow_up_requests.
  apply protocol_then; [now apply step2_protocol|].
  intros st1 H1. apply protocol_then;
    [apply step3_protocol; now rewrite H1|].
  intros st2 H2. apply protocol_then;
    [apply step4_protocol; now rewrite H2, H1|].
  intros st3 H3. apply step5_protocol. rewrite H3, H2, H1. apply Hr.
Qed.

(** Every run of [createLink] in which creation resolved with a uuid. *)
Lemma createLink_follow_up st this options c o created u w1 :
  ready (heap st) this options c o ->
  remote_postLinks remote c (stripped o) (world st) = (inr created, w1) ->
  uuid created = Some u ->
  nonempty u ->
  exists r w' rest,
    createLink remote this options st =
      (match r with
       | Threw e =>
           Threw (new_Error (failure_prefix +:+ message_or_unknown e))
       | _ => r
       end,
       mkState (heap st ++ [ObjOptions (stripped o)]) w'
         (calls st ++ mkCall c (PostLinks (stripped o)) true :: rest)) /\
    protocol_run remote c (follow_up_requests o u)
      (fun l => exists w w2, remote_getLink remote c u w = (inr l, w2))
      w1 r rest w'.
Proof.
  intros Hr Hpost Hu Hne.
  set (st0 := mkState (heap st ++ [ObjOptions (stripped o)]) (world st)
                (calls st)).
  assert (Hr0 : ready (heap st0) this options c o) by now apply ready_app.
  set (st1 := mkState (heap st0) w1
                (calls st0 ++ [mkCall c (PostLinks (stripped o)) true])).
  destruct (follow_up_protocol st1 this options c o u Hr0)
    as (r & w' & rest & Hrun & Hp).
  exists r, w', rest. split; [|exact Hp].
  unfold createLink, try_catch, createLink_body.
  unfold bind at 1. rewrite (step1_eq remote st this options c o Hr).
  rewrite (invoke_resolved c _ _ st0 created w1 Hpost).
  rewrite Hu, (truthy_nonempty u Hne). cbn [negb].
  change (default "" (Some u)) with u.
  fold st1. unfold runs in Hrun. rewrite Hrun.
  cbn [heap calls st1 st0]. rewrite <- app_assoc. cbn [app].
  now destruct r.
Qed.

(** The sub-resource steps, followed by whatever comes next: the next
    computation starts in the state the sub-resource calls left, and does
    not start at all when one of them was rejected. *)
Lemma sub_resources_then {B} st this options c o u (k : M W B) :
  ready (heap st) this options c o ->
  exists (r : Outcome unit) w2 log,
    protocol_run remote c (sub_resource_requests o u) (fun _ => True)
      (world st) r log w2 /\
    bind (step2_toll remote this options u) (fun _ =>
      bind (step3_resource remote this options u) (fun _ =>
        bind (step4_actions remote this options u) (fun _ => k))) st =
      match r with
      | Returned _ => k (mkState (heap st) w2 (calls st ++ log))
      | Threw e => (Threw e, mkState (heap st) w2 (calls st ++ log))
      | Stuck => (Stuck, mkState (heap st) w2 (calls st ++ log))
      end.
Proof.
  intros Hr. unfold sub_resource_requests.
  destruct (step2_protocol st this options c o u Hr)
    as (r2 & w2 & n2 & Hrun2 & Hp2).
  unfold runs in Hrun2. unfold bind at 1. rewrite Hrun2.
  destruct r2 as [[]|e|]; [| |now destruct Hp2 as [? _]].
  2:{ exists (Threw e), w2, n2. split; [|reflexivity].
      now apply (protocol_run_stop c _ _ _ _ e _ n2 w2 Hp2). }
  set (st2 := mkState (heap st) w2 (calls st ++ n2)).
  destruct (step3_protocol st2 this options c o u Hr)
    as (r3 & w3 & n3 & Hrun3 & Hp3).
  unfold runs in Hrun3. unfold bind at 1. rewrite Hrun3.
  destruct r3 as [[]|e|]; [| |now destruct Hp3 as [? _]].
  2:{ exists (Threw e), w3, (n2 ++ n3). split.
      - apply (protocol_run_seq c _ _ _ _ tt _ _ n2 w2 n3 w3 Hp2).
        now apply (protocol_run_stop c _ _ _ _ e _ n3 w3 Hp3).
      - cbn [heap calls st2]. now rewrite app_assoc. }
  set (st3 := mkState (heap st2) w3 (calls st2 ++ n3)).
  destruct (step4_protocol st3 this options c o u Hr)
    as (r4 & w4 & n4 & Hrun4 & Hp4).
  unfold runs in Hrun4. unfold bind. rewrite Hrun4.
  exists r4, w4, (n2 ++ n3 ++ n4). split.
  - apply (protocol_run_seq c _ _ _ _ tt _ _ n2 w2 _ w4 Hp2).
    now apply (protocol_run_seq c _ _ _ _ tt _ _ n3 w3 n4 w4 Hp3).
  - cbn [heap calls st2 st3]. rewrite <- !app_assoc.
    now destruct r4 as [[]| |].
Qed.

(** Every run of [createLink] in which creation resolved with a uuid, read
    off the service's answers: the sub-resource calls are answered one
    after the other from the state creation left; when one is rejected its
    rejection is wrapped and thrown, otherwise the read-back is asked in
    the state they left and its answer is returned, or wrapped and
    thrown. *)
Lemma createLink_exact st this options c o created u w1 :
  ready (heap st) this options c o ->
  remote_postLinks remote c (stripped o) (world st) = (inr created, w1) ->
  uuid created = Some u ->
  nonempty u ->
  exists (r : Outcome unit) w2 log,
    protocol_run remote c (sub_resource_requests o u) (fun _ => True)
      w1 r log w2 /\
    createLink remote this options st =
      match r with
      | Returned _ =>
          match remote_getLink remote c u w2 with
          | (inr l, w3) =>
              (Returned l,
               mkState (heap st ++ [ObjOptions (stripped o)]) w3
                 (calls st ++ mkCall c (PostLinks (stripped o)) true ::
                    log ++ [mkCall c (GetLinksByUuidOrAlias u) true]))
          | (inl e, w3) =>
              (Threw (new_Error (failure_prefix +:+ message_or_unknown e)),
               mkState (heap st ++ [ObjOptions (stripped o)]) w3
                 (calls st ++ mkCall c (PostLinks (stripped o)) true ::
                    log ++ [mkCall c (GetLinksByUuidOrAlias u) false]))
          end
      | Threw e =>
          (Threw (new_Error (failure_prefix +:+ message_or_unknown e)),
           mkState (heap st ++ [ObjOptions (stripped o)]) w2
             (calls st ++ mkCall c (PostLinks (stripped o)) true :: log))
      | Stuck =>
          (Stuck,
           mkState (heap st ++ [ObjOptions (stripped o)]) w2
             (calls st ++ mkCall c (PostLinks (stripped o)) true :: log))
      end.
Proof.
  intros Hr Hpost Hu Hne.
  set (st0 := mkState (heap st ++ [ObjOptions (stripped o)]) (world st)
                (calls st)).
  assert (Hr0 : ready (heap st0) this options c o) by now apply ready_app.
  set (st1 := mkState (heap st0) w1
                (calls st0 ++ [mkCall c (PostLinks (stripped o)) true])).
  destruct (sub_resources_then st1 this options c o u
              (step5_readback remote this u) Hr0)
    as (r & w2 & log & Hp & Hrun).
  exists r, w2, log. split; [exact Hp|].
  unfold createLink, try_catch, createLink_body.
  unfold bind at 1. rewrite (step1_eq remote st this options c o Hr).
  rewrite (invoke_resolved c _ _ st0 created w1 Hpost).
  rewrite Hu, (truthy_nonempty u Hne). cbn [negb].
  change (default "" (Some u)) with u.
  fold st1. rewrite Hrun.
  destruct r as [[]|e|].
  - rewrite (step5_eq remote _ this c u) by apply Hr0.
    unfold invoke. cbn [world heap calls st1 st0].
    destruct (remote_getLink remote c u w2) as [[e|l] w3];
      now rewrite <- !app_assoc.
  - cbn [heap calls st1 st0]. now rewrite <- app_assoc.
  - cbn [heap calls st1 st0]. now rewrite <- app_assoc.
Qed.

End Protocol.

Section Composite.

Context {W : Type}.
Variable remote : Remote W.

Implicit Types (st : State W) (c : Configuration) (o : CreateLinkOptions).

Lemma all_resolved_stops log : all_resolved log -> stops_at_rejection log.
Proof.
  induction 1 as [|x log Hx _ IH]; cbn; [exact I|].
  split; [congruence | assumption].
Qed.

Lemma rejected_last_stops done last :
  all_resolved done -> stops_at_rejection (done ++ [last]).
Proof.
  intros Hd. apply stops_at_rejection_app; [assumption|]. now cbn.
Qed.

Lemma not_all_resolved_rejected done last :
  call_resolved last = false -> ~ all_resolved (done ++ [last]).
Proof.
  intros Hl Hall. apply Forall_app in Hall as [_ Hall].
  inversion Hall; congruence.
Qed.

Lemma protocol_run_stops {A} c reqs (Q : A -> Prop) w0 r new w' :
  protocol_run remote c reqs Q w0 r new w' -> stops_at_rejection new.
Proof.
  intros (Hs & _ & _ & _ & Hret & Hthr). destruct r as [a|e|]; [| |congruence].
  - apply all_resolved_stops. now apply (Hret a).
  - destruct (Hthr e eq_refl) as (done & last & w & -> & Hd & _).
    now apply rejected_last_stops.
Qed.

Lemma resolved_calls_determined c reqs log :
  all_resolved log ->
  Forall (fun call => call_configuration call = c) log ->
  map call_request log = reqs ->
  log = map (fun rq => mkCall c rq true) reqs.
Proof.
  intros Hall Hc <-. induction log as [|[c0 rq ok] log IH]; [reflexivity|].
  inversion Hall as [|? ? Hok Hall']; inversion Hc as [|? ? Hc0 Hc']; subst.
  cbn in *. subst. f_equal. now apply IH.
Qed.

Lemma served_all_resolved c (Inv : W -> Prop) reqs :
  (forall rq w, In rq reqs -> Inv w ->
     rejection remote c rq w = None /\ Inv (next_state remote c rq w)) ->
  forall log w w',
    Forall (fun call => In (call_request call) reqs) log ->
    Inv w -> served remote c w log w' -> all_resolved log /\ Inv w'.
Proof.
  intros Hacc. induction log as [|x log IH]; intros w w' Hin Hw Hsv.
  - cbn in Hsv. subst w'. split; [constructor | assumption].
  - inversion Hin as [|? ? Hx Hin']; subst. destruct Hsv as [Hflag Hsv].
    destruct (Hacc _ w Hx Hw) as [Hnone Hnext]. rewrite Hnone in Hflag.
    destruct (IH _ w' Hin' Hnext Hsv) as [Hall Hw'].
    split; [now constructor | assumption].
Qed.

Lemma requests_of_prefix (reqs : list Request) k (log : list Call) :
  map call_request log = take k reqs ->
  Forall (fun call => In (call_request call) reqs) log.
Proof.
  intros Hreq. apply Forall_forall. intros x Hx.
  apply list_elem_of_In in Hx.
  assert (Hin : In (call_request x) (take k reqs))
    by (rewrite <- Hreq; now apply in_map).
  rewrite <- (take_drop k reqs). apply in_or_app. now left.
Qed.

Lemma truthy_inv (s : option string) :
  truthy s = true -> exists u, s = Some u /\ nonempty u.
Proof.
  destruct s as [[|a u]|]; try discriminate.
  intros _. now exists (String a u).
Qed.

(** Every run of [createLink], read off the service's answers. *)
Lemma createLink_every_run st this options c o :
  ready (heap st) this options c o ->
  exists r w' new,
    createLink remote this options st =
      (r, mkState (heap st ++ [ObjOptions (stripped o)]) w'
            (calls st ++ new)) /\
    served remote c (world st) new w' /\
    ((exists l, r = Returned l) \/
     (exists done last,
        new = done ++ [last] /\ all_resolved done /\
        call_resolved last = false) \/
     (exists created w1,
        remote_postLinks remote c (stripped o) (world st) =
          (inr created, w1) /\
        truthy (uuid created) = false /\
        new = [mkCall c (PostLinks (stripped o)) true])) /\
    (forall created w1 u,
       remote_postLinks remote c (stripped o) (world st) =
         (inr created, w1) ->
       uuid created = Some u ->
       nonempty u ->
       exists k,
         map call_request new =
           take k (PostLinks (stripped o) :: follow_up_requests o u)).
Proof.
  intros Hr.
  destruct (remote_postLinks remote c (stripped o) (world st))
    as [[e|created] w1] eqn:Hpost.
  - exists (Threw (new_Error (failure_prefix +:+ message_or_unknown e))), w1,
      [mkCall c (PostLinks (stripped o)) false].
    split; [|split; [|split]].
    + unfold createLink, try_catch, createLink_body.
      unfold bind at 1. rewrite (step1_eq remote st this options c o Hr).
      now rewrite (invoke_rejected c _ _ (mkState _ (world st) (calls st))
                     e w1 Hpost).
    + cbn. now rewrite Hpost.
    + right. left. exists [], (mkCall c (PostLinks (stripped o)) false).
      split; [reflexivity|]. split; [constructor | reflexivity].
    + intros created w1' u Heq. discriminate.
  - destruct (truthy (uuid created)) eqn:Ht.
    + destruct (truthy_inv _ Ht) as (u & Hu & Hne).
      destruct (createLink_exact remote st this options c o created u w1
                  Hr Hpost Hu Hne) as (r & w2 & log & Hp & Heq).
      destruct Hp as (Hs & (k & Hk & Hreq) & _ & Hsv & Hret & Hthr).
      assert (Hfirst : forall rest w',
                served remote c w1 rest w' ->
                served remote c (world st)
                  (mkCall c (PostLinks (stripped o)) true :: rest) w').
      { intros rest w' Hrest. cbn. now rewrite Hpost. }
      destruct r as [[]|e|]; [| |congruence].
      * destruct (Hret tt eq_refl) as (Hall & Hfull & _).
        assert (Hwhole : forall ok,
                  map call_request
                    (mkCall c (PostLinks (stripped o)) true ::
                     log ++ [mkCall c (GetLinksByUuidOrAlias u) ok]) =
                  PostLinks (stripped o) :: follow_up_requests o u).
        { intros ok. cbn [map call_request].
          now rewrite map_app, Hfull, follow_up_split. }
        destruct (remote_getLink remote c u w2) as [[e|l] w3] eqn:Hget;
          eexists _, w3, _; (split; [exact Heq|]);
          (split; [apply Hfirst, (served_app remote c w1 log w2); [exact Hsv|];
                   cbn; now rewrite Hget|]); split.
        -- right. left.
           exists (mkCall c (PostLinks (stripped o)) true :: log),
             (mkCall c (GetLinksByUuidOrAlias u) false).
           split; [reflexivity|]. split; [now constructor | reflexivity].
        -- intros created' w1' u' Heq' Hu' _.
           injection Heq' as <- <-. rewrite Hu in Hu'. injection Hu' as <-.
           exists (S (length (follow_up_requests o u))).
           rewrite Hwhole. symmetry. apply take_ge. cbn [length]. lia.
        -- left. now exists l.
        -- intros created' w1' u' Heq' Hu' _.
           injection Heq' as <- <-. rewrite Hu in Hu'. injection Hu' as <-.
           exists (S (length (follow_up_requests o u))).
           rewrite Hwhole. symmetry. apply take_ge. cbn [length]. lia.
      * destruct (Hthr e eq_refl) as (done & last & w & -> & Hd & Hl & _).
        eexists _, w2, _. split; [exact Heq|].
        split; [now apply Hfirst|]. split.
        -- right. left.
           exists (mkCall c (PostLinks (stripped o)) true :: done), last.
           split; [reflexivity|]. split; [now constructor | assumption].
        -- intros created' w1' u' Heq' Hu' _.
           injection Heq' as <- <-. rewrite Hu in Hu'. injection Hu' as <-.
           exists (S k). cbn [map call_request take]. f_equal.
           rewrite Hreq, follow_up_split. symmetry. now apply take_app_le.
    + exists (Threw (new_Error
                (failure_prefix +:+ "Failed to create link: no UUID returned"))),
        w1, [mkCall c (PostLinks (stripped o)) true].
      split; [|split; [|split]].
      * unfold createLink, try_catch, createLink_body.
        unfold bind at 1. rewrite (step1_eq remote st this options c o Hr).
        rewrite (invoke_resolved c _ _ (mkState _ (world st) (calls st))
                   created w1 Hpost).
        now rewrite Ht.
      * cbn. now rewrite Hpost.
      * right. right. now exists created, w1.
      * intros created' w1' u Heq' Hu Hne. injection Heq' as <- <-.
        rewrite Hu, (truthy_nonempty u Hne) in Ht. discriminate.
Qed.

(** C4. The calls of a run are each answered by the service in the state
    the calls before it left; the action-creation calls are those of a
    prefix of the supplied list, in list order (all of them when the run
    returns), each made only after every call before it has resolved: no
    remote call is ever made after a rejected one, and a run ends without
    returning only when its last call was rejected or creation resolved
    without a uuid, so that an action is skipped only after a rejection.
    When the first action call rejects, it is the only action call of the
    run: with actions [A; B] and A failing, B is never attempted.  Once
    creation has resolved with a uuid, the requests of the run are an
    initial segment of creation, toll, resource, the actions in list
    order, read-back. *)
Theorem createLink_actions_sequential st this options c o :
  ready (heap st) this options c o ->
  exists new,
    calls (snd (createLink remote this options st)) = calls st ++ new /\
    (exists k, action_bodies new = take k (supplied_actions o)) /\
    (forall l, fst (createLink remote this options st) = Returned l ->
       action_bodies new = supplied_actions o) /\
    stops_at_rejection new /\
    (forall first others,
       action_calls new = first :: others ->
       call_resolved first = false ->
       others = [] /\ action_bodies new = take 1 (supplied_actions o)) /\
    served remote c (world st) new
      (world (snd (createLink remote this options st))) /\
    ((exists l, fst (createLink remote this options st) = Returned l) \/
     (exists done last,
        new = done ++ [last] /\ all_resolved done /\
        call_resolved last = false) \/
     (exists created w1,
        remote_postLinks remote c (stripped o) (world st) =
          (inr created, w1) /\
        truthy (uuid created) = false /\
        new = [mkCall c (PostLinks (stripped o)) true])) /\
    (forall created w1 u,
       remote_postLinks remote c (stripped o) (world st) =
         (inr created, w1) ->
       uuid created = Some u ->
       nonempty u ->
       exists k,
         map call_request new =
           take k (PostLinks (stripped o) :: follow_up_requests o u)).
Proof.
  intros Hr.
  destruct (createLink_runs remote st this options c o Hr)
    as (r & w' & ok & rest & Heq & (_ & Hstop & [k Hk] & Hret)).
  destruct (createLink_every_run st this options c o Hr)
    as (r' & w'' & new & Heq' & Hsv & Hshape & Hprefix).
  rewrite Heq in Heq'. injection Heq' as <- <- Hnew.
  apply app_inv_head in Hnew. subst new. rewrite Heq.
  eexists. split; [reflexivity|]. cbn [fst snd world].
  split; [now exists k|]. split; [intros l ->; now apply (Hret l)|].
  split; [assumption|].
  split; [|split; [exact Hsv | split; [exact Hshape | exact Hprefix]]].
  intros first others Hcalls Hrej.
  assert (Hothers : others = [])
    by now apply (rejection_is_last _ _ first others Hstop Hcalls).
  split; [assumption|].
  pose proof (action_calls_length (mkCall c (PostLinks (stripped o)) ok :: rest))
    as Hlen.
  rewrite Hcalls, Hothers, Hk in Hlen. rewrite Hk.
  destruct (supplied_actions o) as [|a acts]; destruct k as [|k];
    try discriminate; cbn in *.
  f_equal. injection Hlen as Hlen. symmetry in Hlen.
  apply nil_length_inv in Hlen. now rewrite Hlen, take_0.
Qed.

(** X1. Once creation has resolved with a uuid, the remaining calls of any
    run are those of an initial segment of the fixed sequence toll (if
    supplied), resource (if supplied), actions in list order, read-back,
    all keyed by the created uuid and all made under the Configuration the
    façade's Links sub-client is bound to; nothing is called after a
    rejection; and the server is left in exactly the state that answering
    these calls one after the other leads to. *)
Theorem createLink_call_sequence st this options c o created u w1 :
  ready (heap st) this options c o ->
  remote_postLinks remote c (stripped o) (world st) = (inr created, w1) ->
  uuid created = Some u ->
  nonempty u ->
  exists rest,
    calls (snd (createLink remote this options st)) =
      calls st ++ mkCall c (PostLinks (stripped o)) true :: rest /\
    (exists k, map call_request rest = take k (follow_up_requests o u)) /\
    Forall (fun call => call_configuration call = c) rest /\
    stops_at_rejection rest /\
    served remote c w1 rest (world (snd (createLink remote this options st))).
Proof.
  intros Hr Hpost Hu Hne.
  destruct (createLink_follow_up remote st this options c o created u w1
              Hr Hpost Hu Hne) as (r & w' & rest & -> & Hp).
  exists rest. cbn [snd calls world]. split; [reflexivity|].
  pose proof (protocol_run_stops _ _ _ _ _ _ _ Hp) as Hstop.
  destruct Hp as (_ & (k & _ & Hk) & Hc & Hsv & _).
  split; [now exists k|]. now repeat split.
Qed.

(** X2. Once creation has resolved with a uuid, [createLink] returns
    exactly when every later call resolved; it then has made the whole
    sequence of follow-up calls, the read-back last, and the Link it
    returns is the one the read-back of the created uuid answered with in
    the state the sub-resource calls had left the service in. *)
Theorem createLink_returns_iff_all_resolved
    st this options c o created u w1 :
  ready (heap st) this options c o ->
  remote_postLinks remote c (stripped o) (world st) = (inr created, w1) ->
  uuid created = Some u ->
  nonempty u ->
  exists rest,
    calls (snd (createLink remote this options st)) =
      calls st ++ mkCall c (PostLinks (stripped o)) true :: rest /\
    ((exists l, fst (createLink remote this options st) = Returned l) <->
     all_resolved rest) /\
    (forall l, fst (createLink remote this options st) = Returned l ->
       map call_request rest = follow_up_requests o u /\
       exists done w,
         rest = done ++ [mkCall c (GetLinksByUuidOrAlias u) true] /\
         served remote c w1 done w /\
         remote_getLink remote c u w =
           (inr l, world (snd (createLink remote this options st)))).
Proof.
  intros Hr Hpost Hu Hne.
  destruct (createLink_exact remote st this options c o created u w1
              Hr Hpost Hu Hne) as (r & w2 & log & Hp & ->).
  destruct Hp as (Hs & _ & _ & Hsv & Hret & Hthr).
  destruct r as [[]|e|]; [| |congruence].
  - destruct (Hret tt eq_refl) as (Hall & Hreq & _).
    destruct (remote_getLink remote c u w2) as [[e|l] w3] eqn:Hget;
      cbn [fst snd calls world]; eexists; (split; [reflexivity|]); split.
    + split; [intros [l Hl]; discriminate|]. intros Hall'.
      now destruct (not_all_resolved_rejected log
                      (mkCall c (GetLinksByUuidOrAlias u) false) eq_refl).
    + intros l Hl. discriminate.
    + split; [|intros _; now exists l].
      intros _. apply Forall_app. split; [assumption | now repeat constructor].
    + intros l' Hl'. injection Hl' as <-. split.
      * now rewrite map_app, Hreq, follow_up_split.
      * now exists log, w2.
  - destruct (Hthr e eq_refl) as (done & last & w & -> & _ & Hl & _).
    cbn [fst snd calls world]. eexists. split; [reflexivity|]. split.
    + split; [intros [l Hl']; discriminate|].
      intros Hall. now destruct (not_all_resolved_rejected done last Hl).
    + intros l Hl'. discriminate.
Qed.

(** X3. Once creation has resolved with a uuid, an error thrown by
    [createLink] comes from one rejected call, the last of the log, every
    call before it having resolved; its message is the uniform prefix
    followed by the message of what the service rejected that call with in
    the state the calls before it had left the service in, or by
    "Unknown error" when that was not an [Error]. *)
Theorem createLink_error_provenance st this options c o created u w1 e :
  ready (heap st) this options c o ->
  remote_postLinks remote c (stripped o) (world st) = (inr created, w1) ->
  uuid created = Some u ->
  nonempty u ->
  fst (createLink remote this options st) = Threw e ->
  exists done last w e0,
    calls (snd (createLink remote this options st)) =
      calls st ++ mkCall c (PostLinks (stripped o)) true :: done ++ [last] /\
    all_resolved done /\
    call_resolved last = false /\
    In (call_request last) (follow_up_requests o u) /\
    served remote c w1 done w /\
    rejection remote c (call_request last) w = Some e0 /\
    e = new_Error (failure_prefix +:+ message_or_unknown e0).
Proof.
  intros Hr Hpost Hu Hne.
  destruct (createLink_exact remote st this options c o created u w1
              Hr Hpost Hu Hne) as (r & w2 & log & Hp & ->).
  destruct Hp as (Hs & (k & _ & Hk) & _ & Hsv & Hret & Hthr).
  destruct r as [[]|e0|]; [| |congruence].
  - destruct (Hret tt eq_refl) as (Hall & Hreq & _).
    destruct (remote_getLink remote c u w2) as [[e0|l] w3] eqn:Hget;
      cbn [fst snd calls]; intros He; [|discriminate].
    injection He as <-.
    exists log, (mkCall c (GetLinksByUuidOrAlias u) false), w2, e0.
    repeat split; try assumption.
    + rewrite follow_up_split. apply in_or_app. right. now left.
    + cbn. now rewrite Hget.
  - cbn [fst snd calls]. intros He. injection He as <-.
    destruct (Hthr e0 eq_refl) as (done & last & w & -> & Hd & Hl & Hsd & Hw).
    exists done, last, w, e0. repeat split; try assumption.
    pose proof (requests_of_prefix _ _ _ Hk) as Hin.
    apply Forall_app in Hin as [_ Hin].
    rewrite follow_up_split. apply in_or_app. left. now inversion Hin.
Qed.

(** X4. When creation has resolved with a uuid and the service, from then
    on, stays in states in which it accepts every follow-up request,
    [createLink] returns, the log gains exactly creation followed by the
    whole follow-up sequence, every call resolved, and the Link returned is
    one the read-back answered with. *)
Theorem createLink_succeeds_when_accepted
    st this options c o created u w1 (Inv : W -> Prop) :
  ready (heap st) this options c o ->
  remote_postLinks remote c (stripped o) (world st) = (inr created, w1) ->
  uuid created = Some u ->
  nonempty u ->
  Inv w1 ->
  (forall rq w, In rq (follow_up_requests o u) -> Inv w ->
     rejection remote c rq w = None /\ Inv (next_state remote c rq w)) ->
  exists l w',
    createLink remote this options st =
      (Returned l,
       mkState (heap st ++ [ObjOptions (stripped o)]) w'
         (calls st ++
          map (fun rq => mkCall c rq true)
            (PostLinks (stripped o) :: follow_up_requests o u))) /\
    Inv w' /\
    exists w w2, remote_getLink remote c u w = (inr l, w2).
Proof.
  intros Hr Hpost Hu Hne Hw1 Hacc.
  destruct (createLink_follow_up remote st this options c o created u w1
              Hr Hpost Hu Hne) as (r & w' & rest & -> & Hp).
  destruct Hp as (Hs & (k & _ & Hk) & Hc & Hsv & Hret & Hthr).
  destruct (served_all_resolved c Inv _ Hacc rest w1 w'
              (requests_of_prefix _ _ _ Hk) Hw1 Hsv) as [Hall Hw'].
  destruct r as [l|e|]; [| |congruence].
  - destruct (Hret l eq_refl) as (_ & Hreq & HQ).
    exists l, w'. split; [|now split].
    cbn [map]. now rewrite (resolved_calls_determined c _ rest Hall Hc Hreq).
  - destruct (Hthr e eq_refl) as (done & last & w & -> & _ & Hl & _).
    now destruct (not_all_resolved_rejected done last Hl).
Qed.

End Composite.

(** ** The façade's configuration *)

Section Configuring.

Context {W : Type}.

Implicit Types (st : State W) (c : Configuration).

Lemma apply_update_eq st this g old up :
  heap st !! this = Some (ObjGatepay g) ->
  heap st !! configuration g = Some (ObjConfiguration old) ->
  let n := length (heap st) in
  apply_update this up st =
    (Returned tt,
     mkState
       (<[this := ObjGatepay (mkGatepay n (n + 1) (n + 2) (n + 3))]> (heap st)
        ++ [ObjConfiguration (updated old up);
            ObjAccountApi n; ObjLinksApi n; ObjNetworksApi n])
       (world st) (calls st)).
Proof.
  intros Hg Hc n. destruct up as [t|b]; cbn [apply_update updated].
  - exact (updateApiToken_eq st this g old t Hg Hc).
  - exact (updateBasePath_eq st this g old b Hg Hc).
Qed.

(** After an update the façade is bound, through its Links sub-client, to
    the Configuration it now holds. *)
Lemma apply_update_bound st this g old up :
  heap st !! this = Some (ObjGatepay g) ->
  heap st !! configuration g = Some (ObjConfiguration old) ->
  exists st' g',
    apply_update this up st = (Returned tt, st') /\
    world st' = world st /\
    calls st' = calls st /\
    heap st' !! this = Some (ObjGatepay g') /\
    heap st' !! configuration g' = Some (ObjConfiguration (updated old up)) /\
    links_bound (heap st') this (updated old up) /\
    (forall p x, p <> this -> heap st !! p = Some x -> heap st' !! p = Some x).
Proof.
  intros Hg Hc.
  assert (Hlt : this < length (heap st)) by (eapply lookup_lt_Some; eassumption).
  rewrite (apply_update_eq st this g old up Hg Hc).
  set (n := length (heap st)).
  set (g' := mkGatepay n (n + 1) (n + 2) (n + 3)).
  eexists _, g'. split; [reflexivity|]. cbn [heap world calls].
  assert (Hthis : forall tl : list Object,
            (<[this := ObjGatepay g']> (heap st) ++ tl) !! this =
            Some (ObjGatepay g')) by (intros tl; now apply lookup_this).
  split; [reflexivity|]. split; [reflexivity|]. split; [apply Hthis|].
  split; [now rewrite (lookup_fresh _ _ _ _ n 0) by lia|].
  split.
  - exists g', n. split; [apply Hthis|]. split.
    + now rewrite (lookup_fresh _ _ _ _ (n + 2) 2) by reflexivity.
    + now rewrite (lookup_fresh _ _ _ _ n 0) by lia.
  - intros p x Hp Hx. now apply lookup_old.
Qed.

Lemma updates_fold ups : forall st this g old,
  heap st !! this = Some (ObjGatepay g) ->
  heap st !! configuration g = Some (ObjConfiguration old) ->
  exists st' g',
    for_of ups (apply_update this) st = (Returned tt, st') /\
    world st' = world st /\
    calls st' = calls st /\
    heap st' !! this = Some (ObjGatepay g') /\
    heap st' !! configuration g' =
      Some (ObjConfiguration (fold_left updated ups old)) /\
    (ups <> [] -> links_bound (heap st') this (fold_left updated ups old)).
Proof.
  induction ups as [|up ups IH]; intros st this g old Hg Hc.
  - exists st, g. now repeat split.
  - destruct (apply_update_bound st this g old up Hg Hc)
      as (st1 & g1 & Hrun & Hw1 & Hl1 & Hg1 & Hc1 & Hb1 & _).
    destruct (IH st1 this g1 (updated old up) Hg1 Hc1)
      as (st' & g' & Hrun' & Hw' & Hl' & Hg' & Hc' & Hb').
    exists st', g'. cbn [for_of fold_left].
    rewrite (bind_eq _ _ _ _ _ Hrun).
    split; [assumption|]. split; [congruence|]. split; [congruence|].
    split; [assumption|]. split; [assumption|].
    intros _. destruct ups as [|up' ups']; [|apply Hb'; discriminate].
    cbn in Hrun'. injection Hrun' as <-. exact Hb1.
Qed.

(** X5. The constructor makes one Configuration from its options (an
    explicit non-empty base path as given, the production address when the
    base path is absent or the empty string, the token as given) and three
    sub-clients all bound to that one Configuration object; it makes no
    remote call and leaves every existing object as it was. *)
Theorem constructor_wires_facade st (client : GatepayClientOptions) :
  exists this g st',
    new_Gatepay client st = (Returned this, st') /\
    world st' = world st /\
    calls st' = calls st /\
    (forall p x, heap st !! p = Some x -> heap st' !! p = Some x) /\
    heap st' !! this = Some (ObjGatepay g) /\
    heap st' !! configuration g =
      Some (ObjConfiguration (initial_configuration client)) /\
    heap st' !! account g = Some (ObjAccountApi (configuration g)) /\
    heap st' !! links g = Some (ObjLinksApi (configuration g)) /\
    heap st' !! networks g = Some (ObjNetworksApi (configuration g)) /\
    accessToken (initial_configuration client) = apiToken client /\
    (forall b, opt_basePath client = Some b -> nonempty b ->
       basePath (initial_configuration client) = b) /\
    (opt_basePath client = None \/ opt_basePath client = Some "" ->
       basePath (initial_configuration client) = "https://api.gatepay.cloud").
Proof.
  rewrite new_Gatepay_eq. set (n := length (heap st)).
  exists (n + 4), (mkGatepay n (n + 1) (n + 2) (n + 3)). eexists.
  split; [reflexivity|]. cbn [heap world calls configuration account links
                              networks].
  assert (Hk : forall (tl : list Object) k, (heap st ++ tl) !! (n + k) = tl !! k).
  { intros tl k. rewrite lookup_app_r by lia. f_equal. lia. }
  split; [reflexivity|]. split; [reflexivity|].
  split; [intros p x; apply lookup_app_l_Some|].
  split; [now rewrite Hk|].
  split; [rewrite <- (Nat.add_0_r n) at 1; now rewrite Hk|].
  split; [now rewrite Hk|]. split; [now rewrite Hk|]. split; [now rewrite Hk|].
  split; [reflexivity|]. split.
  - intros b Hsome Hb. unfold initial_configuration. cbn. rewrite Hsome.
    destruct b; [now destruct Hb | reflexivity].
  - unfold initial_configuration. cbn. now intros [-> | ->].
Qed.

(** X6. After [updateBasePath b] the façade holds a new Configuration with
    base path [b] and the token it had before; its three sub-client fields
    refer to fresh objects bound to it, so a call through the façade's
    Links sub-client runs with [b]; no remote call is made; a Links
    sub-client reference taken before the update still runs with the
    Configuration it was bound to. *)
Theorem updateBasePath_rebinds (remote : Remote W)
    st this g old api cl captured b :
  heap st !! this = Some (ObjGatepay g) ->
  heap st !! configuration g = Some (ObjConfiguration old) ->
  heap st !! api = Some (ObjLinksApi cl) ->
  heap st !! cl = Some (ObjConfiguration captured) ->
  exists st' g',
    updateBasePath this b st = (Returned tt, st') /\
    world st' = world st /\
    calls st' = calls st /\
    heap st' !! this = Some (ObjGatepay g') /\
    current_configuration (heap st') this =
      Some (mkConfiguration b (accessToken old)) /\
    heap st' !! account g' = Some (ObjAccountApi (configuration g')) /\
    heap st' !! links g' = Some (ObjLinksApi (configuration g')) /\
    heap st' !! networks g' = Some (ObjNetworksApi (configuration g')) /\
    (length (heap st) <= configuration g' /\
     length (heap st) <= account g' /\
     length (heap st) <= links g' /\
     length (heap st) <= networks g') /\
    (forall u,
       logs_call_with
         (let! a := this_links this in
          LinksApi_getLinksByUuidOrAlias remote a u)
         st' (mkConfiguration b (accessToken old))) /\
    (forall u,
       logs_call_with (LinksApi_getLinksByUuidOrAlias remote api u) st'
         captured).
Proof.
  intros Hg Hc Ha Hcl.
  assert (Hlt : this < length (heap st)) by (eapply lookup_lt_Some; eassumption).
  assert (Hapi : api <> this) by (intros ->; congruence).
  assert (Hcl' : cl <> this) by (intros ->; congruence).
  rewrite (updateBasePath_eq st this g old b Hg Hc).
  set (n := length (heap st)).
  set (g' := mkGatepay n (n + 1) (n + 2) (n + 3)).
  set (tl := [ObjConfiguration (mkConfiguration b (accessToken old));
              ObjAccountApi n; ObjLinksApi n; ObjNetworksApi n]).
  assert (Hthis : (<[this := ObjGatepay g']> (heap st) ++ tl) !! this =
                  Some (ObjGatepay g')) by now apply lookup_this.
  assert (Hnew : (<[this := ObjGatepay g']> (heap st) ++ tl) !! n =
                 Some (ObjConfiguration (mkConfiguration b (accessToken old))))
    by (rewrite (lookup_fresh _ _ _ _ n 0); [reflexivity | lia]).
  assert (Hlinks : (<[this := ObjGatepay g']> (heap st) ++ tl) !! (n + 2) =
                   Some (ObjLinksApi n))
    by (rewrite (lookup_fresh _ _ _ _ (n + 2) 2); [reflexivity | lia]).
  eexists _, g'. split; [reflexivity|]. cbn [heap world calls].
  repeat split; try assumption; cbn [configuration account links networks g'];
    try lia.
  - unfold current_configuration. rewrite Hthis.
    change (configuration g') with n. now rewrite Hnew.
  - rewrite (lookup_fresh _ _ _ _ (n + 1) 1); [reflexivity | lia].
  - rewrite (lookup_fresh _ _ _ _ (n + 3) 3); [reflexivity | lia].
  - intros u. apply facade_call_logs. cbn. now exists g', n.
  - intros u. apply (handle_call_logs remote _ api cl); now apply lookup_old.
Qed.

(** X8. Neither update writes to a Configuration: the reference
    [getConfiguration] returned before an update still reads the old
    values afterwards, every object but the façade keeps its content, and
    [getConfiguration] afterwards returns another, new reference, to the
    updated Configuration. *)
Theorem update_keeps_old_configuration st this g old up :
  heap st !! this = Some (ObjGatepay g) ->
  heap st !! configuration g = Some (ObjConfiguration old) ->
  exists st' fresh,
    getConfiguration this st = (Returned (configuration g), st) /\
    apply_update this up st = (Returned tt, st') /\
    getConfiguration this st' = (Returned fresh, st') /\
    fresh <> configuration g /\
    heap st' !! fresh = Some (ObjConfiguration (updated old up)) /\
    heap st' !! configuration g = Some (ObjConfiguration old) /\
    (forall p x, p <> this -> heap st !! p = Some x -> heap st' !! p = Some x) /\
    length (heap st') = length (heap st) + 4.
Proof.
  intros Hg Hc.
  assert (Hlt : this < length (heap st)) by (eapply lookup_lt_Some; eassumption).
  assert (Hcfg : configuration g < length (heap st))
    by (eapply lookup_lt_Some; eassumption).
  assert (Hne : configuration g <> this) by (intros E; rewrite E in Hc; congruence).
  rewrite (apply_update_eq st this g old up Hg Hc).
  set (n := length (heap st)) in *.
  set (g' := mkGatepay n (n + 1) (n + 2) (n + 3)).
  eexists _, n. cbn [heap].
  assert (Hthis : forall tl : list Object,
            (<[this := ObjGatepay g']> (heap st) ++ tl) !! this =
            Some (ObjGatepay g')) by (intros tl; now apply lookup_this).
  split.
  { unfold getConfiguration, this_configuration, read_Gatepay, bind, read, ret.
    now rewrite Hg. }
  split; [reflexivity|]. cbn [heap]. split.
  { unfold getConfiguration, this_configuration, read_Gatepay, bind, read, ret.
    cbn [heap]. now rewrite Hthis. }
  split; [lia|].
  split; [now rewrite (lookup_fresh _ _ _ _ n 0) by lia|].
  split; [now apply lookup_old|].
  split; [intros p x Hp Hx; now apply lookup_old|].
  rewrite length_app, length_insert. reflexivity.
Qed.

End Configuring.

(** X7. However many updates follow the constructor, in whatever order,
    they all succeed without a remote call, and the Configuration the
    façade ends up holding is the constructor's one with each field
    replaced by the last value an update gave for it. *)
Theorem updates_compose (client : GatepayClientOptions) ups :
  exists this st',
    facade_after client ups = (Returned this, st') /\
    calls st' = [] /\
    current_configuration (heap st') this =
      Some (fold_left updated ups (initial_configuration client)) /\
    links_bound (heap st') this
      (fold_left updated ups (initial_configuration client)).
Proof.
  unfold facade_after.
  rewrite (bind_eq _ _ _ _ _ (new_Gatepay_eq (mkState [] tt []) client)).
  cbn [heap world calls length Nat.add app].
  fold (initial_configuration client).
  set (st0 := mkState _ tt []).
  destruct (updates_fold ups st0 4 (mkGatepay 0 1 2 3)
              (initial_configuration client) eq_refl eq_refl)
    as (st' & g' & Hrun & _ & Hcalls & Hg' & Hc' & Hb').
  exists 4, st'. rewrite (bind_eq _ _ _ _ _ Hrun).
  split; [reflexivity|]. split; [exact Hcalls|]. split.
  - unfold current_configuration. now rewrite Hg', Hc'.
  - destruct ups as [|up ups]; [|apply Hb'; discriminate].
    cbn in Hrun. injection Hrun as <-.
    now exists (mkGatepay 0 1 2 3), 0.
Qed.

(** ** The façade's configuration and [createLink] together *)

Section EndToEnd.

Context {W : Type}.
Variable remote : Remote W.

Implicit Types (st : State W) (c : Configuration) (o : CreateLinkOptions).

(** Every remote call of a run is made under the Configuration the
    façade's Links sub-client is bound to, and there is at least one. *)
Lemma createLink_configured st this options c o :
  ready (heap st) this options c o ->
  exists r w' new,
    createLink remote this options st =
      (r, mkState (heap st ++ [ObjOptions (stripped o)]) w'
            (calls st ++ new)) /\
    r <> Stuck /\
    new <> [] /\
    Forall (fun call => call_configuration call = c) new.
Proof.
  intros Hr.
  destruct (remote_postLinks remote c (stripped o) (world st))
    as [[e|created] w1] eqn:Hpost.
  - exists (Threw (new_Error (failure_prefix +:+ message_or_unknown e))), w1,
      [mkCall c (PostLinks (stripped o)) false].
    split; [|split; [discriminate | split; [discriminate | repeat constructor]]].
    unfold createLink, try_catch, createLink_body.
    unfold bind at 1. rewrite (step1_eq remote st this options c o Hr).
    now rewrite (invoke_rejected c _ _ (mkState _ (world st) (calls st))
                   e w1 Hpost).
  - destruct (truthy (uuid created)) eqn:Ht.
    + destruct (truthy_inv _ Ht) as (u & Hu & Hne).
      destruct (createLink_follow_up remote st this options c o created u w1
                  Hr Hpost Hu Hne) as (r & w' & rest & Heq & Hp).
      destruct Hp as (Hs & _ & Hc & _).
      eexists _, w', (mkCall c (PostLinks (stripped o)) true :: rest).
      split; [exact Heq|]. split; [now destruct r|].
      split; [discriminate | now constructor].
    + exists (Threw (new_Error
                (failure_prefix +:+ "Failed to create link: no UUID returned"))),
        w1, [mkCall c (PostLinks (stripped o)) true].
      split; [|split; [discriminate | split; [discriminate | repeat constructor]]].
      unfold createLink, try_catch, createLink_body.
      unfold bind at 1. rewrite (step1_eq remote st this options c o Hr).
      rewrite (invoke_resolved c _ _ (mkState _ (world st) (calls st))
                 created w1 Hpost).
      now rewrite Ht.
Qed.

(** X9. A caller who builds the façade and then calls [createLink] gets
    every remote call of that run made with the base path and the token
    of the constructor's options (the production address when none was
    given); the run makes at least the creation call. *)
Theorem construct_and_create_uses_client_options st
    (client : GatepayClientOptions) o :
  exists new,
    calls (snd (construct_and_create remote client o st)) = calls st ++ new /\
    new <> [] /\
    Forall (fun call =>
              call_configuration call = initial_configuration client) new /\
    fst (construct_and_create remote client o st) <> Stuck.
Proof.
  set (n := length (heap st)).
  set (h := (heap st ++
             [ObjConfiguration (initial_configuration client);
              ObjAccountApi n; ObjLinksApi n; ObjNetworksApi n;
              ObjGatepay (mkGatepay n (n + 1) (n + 2) (n + 3))]) ++
            [ObjOptions o]).
  assert (Hprog : construct_and_create remote client o st =
                  createLink remote (n + 4) (n + 5)
                    (mkState h (world st) (calls st))).
  { unfold construct_and_create.
    rewrite (bind_eq _ _ _ _ _ (new_Gatepay_eq st client)).
    unfold bind, alloc. cbn [heap world calls].
    rewrite length_app. reflexivity. }
  assert (Hk : forall k, h !! (n + k) =
            [ObjConfiguration (initial_configuration client);
             ObjAccountApi n; ObjLinksApi n; ObjNetworksApi n;
             ObjGatepay (mkGatepay n (n + 1) (n + 2) (n + 3));
             ObjOptions o] !! k).
  { intros k. unfold h. rewrite <- app_assoc.
    rewrite lookup_app_r by lia. f_equal. lia. }
  assert (Hready : ready h (n + 4) (n + 5) (initial_configuration client) o).
  { split.
    - exists (mkGatepay n (n + 1) (n + 2) (n + 3)), n.
      split; [now rewrite Hk|]. cbn [links].
      split; [now rewrite Hk|].
      rewrite <- (Nat.add_0_r n) at 1. now rewrite Hk.
    - now rewrite Hk. }
  destruct (createLink_configured (mkState h (world st) (calls st))
              (n + 4) (n + 5) (initial_configuration client) o Hready)
    as (r & w' & new & Heq & Hs & Hnew & Hc).
  rewrite Hprog, Heq. exists new. now repeat split.
Qed.

(** X10. After an update, every remote call of a [createLink] run is made
    with the updated Configuration: the new token with the old base path,
    or the new base path with the old token. *)
Theorem update_then_createLink st this options g old o up :
  heap st !! this = Some (ObjGatepay g) ->
  heap st !! configuration g = Some (ObjConfiguration old) ->
  heap st !! options = Some (ObjOptions o) ->
  exists new,
    calls (snd ((do! apply_update this up in
                 createLink remote this options) st)) = calls st ++ new /\
    new <> [] /\
    Forall (fun call => call_configuration call = updated old up) new.
Proof.
  intros Hg Hc Ho.
  destruct (apply_update_bound st this g old up Hg Hc)
    as (st' & g' & Hrun & _ & Hcalls & _ & _ & Hb & Hframe).
  assert (Hne : options <> this) by (intros ->; congruence).
  assert (Hready : ready (heap st') this options (updated old up) o)
    by (split; [exact Hb | now apply Hframe]).
  destruct (createLink_configured st' this options (updated old up) o Hready)
    as (r & w' & new & Heq & _ & Hnew & Hcfg).
  rewrite (bind_eq _ _ _ _ _ Hrun), Heq. cbn [snd calls].
  exists new. rewrite Hcalls. now repeat split.
Qed.

End EndToEnd.

(** ** The payment monitor *)

#[local] Set Warnings "-clear-no-such-hyp".

Lemma filter_unseen_spec ps : forall seen,
  snd (filter_unseen seen ps) = seen ∪ list_to_set (payment_uuid <$> ps) /\
  NoDup (payment_uuid <$> fst (filter_unseen seen ps)) /\
  (forall p, p ∈ fst (filter_unseen seen ps) -> payment_uuid p ∉ seen) /\
  fst (filter_unseen seen ps) `sublist_of` ps /\
  (forall id, id ∈ payment_uuid <$> ps -> id ∉ seen ->
     id ∈ payment_uuid <$> fst (filter_unseen seen ps)).
Proof.
  induction ps as [|p rest IH]; intros seen; cbn [filter_unseen].
  - cbn. split; [set_solver|]. split; [apply NoDup_nil_2|].
    split; [set_solver|]. split; [constructor | set_solver].
  - case_decide as Hseen.
    + destruct (IH seen) as (Hs & Hnd & Hfresh & Hsub & Hall).
      repeat split; try assumption.
      * rewrite Hs. set_solver.
      * now apply sublist_cons.
      * intros id Hid Hnew. apply Hall; [|assumption]. set_solver.
    + specialize (IH ({[payment_uuid p]} ∪ seen)).
      destruct (filter_unseen ({[payment_uuid p]} ∪ seen) rest)
        as [new seen'] eqn:E.
      cbn [fst snd] in *. destruct IH as (Hs & Hnd & Hfresh & Hsub & Hall).
      repeat split.
      * rewrite Hs. set_solver.
      * rewrite fmap_cons. apply NoDup_cons. split; [|assumption].
        intros Hin. apply list_elem_of_fmap in Hin as (q & Hq & Hqin).
        specialize (Hfresh q Hqin). set_solver.
      * intros q Hq. apply elem_of_cons in Hq as [-> | Hq]; [assumption|].
        specialize (Hfresh q Hq). set_solver.
      * now apply sublist_skip.
      * intros id Hid Hnew. rewrite fmap_cons in *.
        apply elem_of_cons in Hid as [-> | Hid]; [set_solver|].
        destruct (decide (id = payment_uuid p)) as [-> | Hne]; [set_solver|].
        apply elem_of_cons. right. apply Hall; [assumption | set_solver].
Qed.

Lemma filter_unseen_all_seen ps : forall seen,
  (forall p, p ∈ ps -> payment_uuid p ∈ seen) ->
  filter_unseen seen ps = ([], seen).
Proof.
  induction ps as [|p rest IH]; intros seen Hall; cbn [filter_unseen];
    [reflexivity|].
  case_decide as Hseen.
  - apply IH. intros q Hq. apply Hall. set_solver.
  - destruct Hseen. apply Hall. set_solver.
Qed.

Lemma filter_unseen_app l1 : forall l2 seen,
  filter_unseen seen (l1 ++ l2) =
    (fst (filter_unseen seen l1) ++
       fst (filter_unseen (snd (filter_unseen seen l1)) l2),
     snd (filter_unseen (snd (filter_unseen seen l1)) l2)).
Proof.
  induction l1 as [|p rest IH]; intros l2 seen; cbn [app filter_unseen].
  - cbn. now destruct (filter_unseen seen l2).
  - case_decide as Hseen; [apply IH|].
    rewrite IH.
    destruct (filter_unseen ({[payment_uuid p]} ∪ seen) rest) as [n1 s1].
    reflexivity.
Qed.

Lemma deliveries_concat responses : forall seen,
  deliveries seen responses = filter_unseen seen (concat responses).
Proof.
  induction responses as [|ps rest IH]; intros seen; cbn [deliveries concat];
    [reflexivity|].
  rewrite filter_unseen_app, <- IH.
  destruct (filter_unseen seen ps) as [new seen1]. cbn [fst snd].
  now destruct (deliveries seen1 rest).
Qed.

Lemma sorted_shift keep :
  StronglySorted lt keep -> StronglySorted lt (S <$> keep).
Proof.
  induction 1 as [|a l Hs IH Hall]; cbn; constructor; [assumption|].
  rewrite Forall_fmap. eapply Forall_impl; [exact Hall|].
  intros x Hx. cbn. lia.
Qed.

(** The positions of a response whose payments are kept: those of an
    unseen id that no earlier position of the response carries. *)
Lemma filter_unseen_positions ps : forall seen,
  exists keep : list nat,
    StronglySorted lt keep /\
    (ps !!.) <$> keep = Some <$> fst (filter_unseen seen ps) /\
    (forall i, i ∈ keep <->
       exists p, ps !! i = Some p /\ (payment_uuid p ∉ seen) /\
         (forall j q, j < i -> ps !! j = Some q ->
                      payment_uuid q <> payment_uuid p)).
Proof.
  induction ps as [|p rest IH]; intros seen; cbn [filter_unseen].
  - exists []. split; [constructor|]. split; [reflexivity|].
    intros i. split; [intros H; inversion H|].
    intros (p & Hp & _). discriminate Hp.
  - case_decide as Hseen.
    + destruct (IH seen) as (keep & Hs & Hmap & Hmem).
      exists (S <$> keep). split; [now apply sorted_shift|].
      split; [rewrite <- list_fmap_compose; exact Hmap|].
      intros i. rewrite list_elem_of_fmap. split.
      * intros (i' & -> & Hi'). apply Hmem in Hi' as (q & Hq & Hns & Hfirst).
        exists q. split; [exact Hq|]. split; [assumption|].
        intros j q' Hj Hq'. destruct j as [|j]; cbn in Hq'.
        -- injection Hq' as <-. intros Heq. rewrite Heq in Hseen.
           contradiction.
        -- apply (Hfirst j q'); [lia | assumption].
      * intros (q & Hq & Hns & Hfirst). destruct i as [|i']; cbn in Hq.
        -- injection Hq as <-. contradiction.
        -- exists i'. split; [reflexivity|]. apply Hmem.
           exists q. split; [assumption|]. split; [assumption|].
           intros j q' Hj Hq'. apply (Hfirst (S j) q'); [lia | exact Hq'].
    + destruct (IH ({[payment_uuid p]} ∪ seen)) as (keep & Hs & Hmap & Hmem).
      destruct (filter_unseen ({[payment_uuid p]} ∪ seen) rest)
        as [new seen'] eqn:E.
      cbn [fst] in *. exists (0 :: (S <$> keep)).
      split; [|split].
      * constructor; [now apply sorted_shift|].
        rewrite Forall_fmap. apply Forall_forall. intros x _. cbn. lia.
      * rewrite !fmap_cons. f_equal.
        rewrite <- list_fmap_compose. exact Hmap.
      * intros i. rewrite elem_of_cons, list_elem_of_fmap. split.
        -- intros [-> | (i' & -> & Hi')].
           ++ exists p. split; [reflexivity|]. split; [assumption|].
              intros j q Hj. lia.
           ++ apply Hmem in Hi' as (q & Hq & Hns & Hfirst).
              exists q. split; [exact Hq|]. split; [set_solver|].
              intros j q' Hj Hq'. destruct j as [|j]; cbn in Hq'.
              ** injection Hq' as <-. set_solver.
              ** apply (Hfirst j q'); [lia | assumption].
        -- intros (q & Hq & Hns & Hfirst). destruct i as [|i']; [now left|].
           right. exists i'. split; [reflexivity|]. apply Hmem.
           cbn in Hq. exists q. split; [assumption|].
           pose proof (Hfirst 0 p ltac:(lia) eq_refl) as Hp.
           split; [set_solver|].
           intros j q' Hj Hq'. apply (Hfirst (S j) q'); [lia | exact Hq'].
Qed.

(** X11. Filtering a response against the set of seen ids hands over each
    unseen id exactly once, at its first occurrence: the payments kept
    have pairwise different ids, none of them seen before, in the order
    of the response; every id of the response that was not seen before is
    among them; the set afterwards is the set before with all the ids of
    the response; and the payments kept are exactly those at the
    positions, in increasing order, whose id was not seen before and is
    carried by no earlier position of the response. *)
Theorem filter_unseen_delivers_once seen ps :
  snd (filter_unseen seen ps) = seen ∪ list_to_set (payment_uuid <$> ps) /\
  NoDup (payment_uuid <$> fst (filter_unseen seen ps)) /\
  (forall p, p ∈ fst (filter_unseen seen ps) -> payment_uuid p ∉ seen) /\
  fst (filter_unseen seen ps) `sublist_of` ps /\
  (forall id, id ∈ payment_uuid <$> ps -> id ∉ seen ->
     id ∈ payment_uuid <$> fst (filter_unseen seen ps)) /\
  exists keep : list nat,
    StronglySorted lt keep /\
    (ps !!.) <$> keep = Some <$> fst (filter_unseen seen ps) /\
    (forall i, i ∈ keep <->
       exists p, ps !! i = Some p /\ (payment_uuid p ∉ seen) /\
         (forall j q, j < i -> ps !! j = Some q ->
                      payment_uuid q <> payment_uuid p)).
Proof.
  destruct (filter_unseen_spec ps seen) as (H1 & H2 & H3 & H4 & H5).
  repeat (split; [assumption|]). apply filter_unseen_positions.
Qed.

(** X12. A response whose payments have all been seen hands over nothing
    and leaves the set as it is; so the same response polled a second
    time yields no payment. *)
Theorem filter_unseen_again seen ps :
  (forall qs, (forall p, p ∈ qs -> payment_uuid p ∈ seen) ->
     filter_unseen seen qs = ([], seen)) /\
  filter_unseen (snd (filter_unseen seen ps)) ps =
    ([], snd (filter_unseen seen ps)).
Proof.
  split; [intros qs; apply filter_unseen_all_seen|].
  apply filter_unseen_all_seen. intros p Hp.
  destruct (filter_unseen_spec ps seen) as (-> & _).
  apply elem_of_union_r, elem_of_list_to_set, list_elem_of_fmap. now exists p.
Qed.

Section MonitorTicks.

Context {S U : Type}.
Variable getPayments :
  string -> Z -> Z -> S -> (JsThrown + PaymentsResponse) * S.

Lemma guarded_call_eq {A} (cb : option (Callback A U)) (a : A)
    h seen pc pol (s : S) (u : U) l :
  guarded_call cb a (mkState h (mkMonitor seen pc pol s u) l) =
    (Returned tt,
     mkState h
       (mkMonitor seen pc pol s
          match cb with Some f => snd (f a u) | None => u end) l).
Proof.
  destruct cb as [f|]; [|reflexivity].
  unfold guarded_call, try_catch, call_back, on_monitor, ret. cbn.
  now destruct (f a u) as [[e|] u'].
Qed.

Lemma for_of_guarded cb ps : forall h seen pc pol (s : S) (u : U) l,
  for_of ps (fun payment => guarded_call cb payment)
    (mkState h (mkMonitor seen pc pol s u) l) =
    (Returned tt, mkState h (mkMonitor seen pc pol s (notified cb ps u)) l).
Proof.
  induction ps as [|p rest IH]; intros h seen pc pol s u l.
  - now destruct cb.
  - cbn [for_of]. rewrite (bind_eq _ _ _ _ _ (guarded_call_eq cb p _ _ _ _ _ _ _)).
    rewrite IH. now destruct cb.
Qed.

Lemma stop_at_limit_eq limit h seen pc pol (s : S) (u : U) l :
  stop_at_limit limit (mkState h (mkMonitor seen pc pol s u) l) =
    (Returned tt,
     mkState h (mkMonitor seen pc (pol && negb (limit <=? pc)%Z) s u) l).
Proof.
  unfold stop_at_limit, bind, on_monitor, clearInterval, ret. cbn.
  destruct (limit <=? pc)%Z; cbn; now rewrite ?andb_false_r, ?andb_true_r.
Qed.

Lemma tick_on_response h l seen pc pol s u linkUuid
    (options : MonitorOptions U) response s' :
  getPayments linkUuid 50%Z 1%Z s = (inr response, s') ->
  poll_tick getPayments linkUuid options
    (mkState h (mkMonitor seen pc pol s u) l) =
    (Returned tt,
     mkState h
       (mkMonitor
          (snd (filter_unseen seen (default [] (payments response))))
          (pc + 1)
          (still_polling pol (maxPolls options) (pc + 1))
          s'
          (notified (onPaymentFound options)
             (fst (filter_unseen seen (default [] (payments response)))) u))
       l).
Proof.
  intros Hget. unfold poll_tick, try_catch.
  unfold bind at 1. unfold count_poll at 1, on_monitor at 1. cbn [world heap calls
    seenPayments pollCount polling service caller].
  unfold bind at 1. unfold fetch_payments at 1, on_monitor at 1.
  cbn [world heap calls seenPayments pollCount polling service caller].
  rewrite Hget.
  unfold bind at 1. unfold take_unseen at 1, on_monitor at 1.
  cbn [world heap calls seenPayments pollCount polling service caller].
  destruct (filter_unseen seen (default [] (payments response)))
    as [new seen'].
  unfold bind at 1. rewrite for_of_guarded, stop_at_limit_eq.
  reflexivity.
Qed.

Lemma tick_on_rejection h l seen pc pol s u linkUuid
    (options : MonitorOptions U) e s' :
  getPayments linkUuid 50%Z 1%Z s = (inl e, s') ->
  poll_tick getPayments linkUuid options
    (mkState h (mkMonitor seen pc pol s u) l) =
    (Returned tt,
     mkState h
       (mkMonitor seen (pc + 1)
          (still_polling pol (maxPolls options) (pc + 1))
          s' (reported (onError options) e u))
       l).
Proof.
  intros Hget. unfold poll_tick, try_catch.
  unfold bind at 1. unfold count_poll at 1, on_monitor at 1. cbn [world heap calls
    seenPayments pollCount polling service caller].
  unfold bind at 1. unfold fetch_payments at 1, on_monitor at 1.
  cbn [world heap calls seenPayments pollCount polling service caller].
  rewrite Hget.
  rewrite (bind_eq _ _ _ _ _ (guarded_call_eq (onError options) e _ _ _ _ _ _ _)).
  rewrite stop_at_limit_eq. reflexivity.
Qed.

(** X14. A firing whose poll gets a response counts the poll, hands
    exactly the payments not seen before to [onPaymentFound], one after
    the other in the order of the response (all of them, also after a
    call that threw; none when the response has no [payments]), records
    their ids as seen, clears the interval when the count has reached
    [maxPolls] (120 when not given), and does not throw. *)
Theorem poll_tick_on_response h l seen pc pol s u linkUuid
    (options : MonitorOptions U) response s' :
  getPayments linkUuid 50%Z 1%Z s = (inr response, s') ->
  poll_tick getPayments linkUuid options
    (mkState h (mkMonitor seen pc pol s u) l) =
    (Returned tt,
     mkState h
       (mkMonitor
          (snd (filter_unseen seen (default [] (payments response))))
          (pc + 1)
          (still_polling pol (maxPolls options) (pc + 1))
          s'
          (notified (onPaymentFound options)
             (fst (filter_unseen seen (default [] (payments response)))) u))
       l).
Proof. apply tick_on_response. Qed.

(** X15. A firing whose poll is rejected counts the poll, leaves the set
    of seen ids as it is, hands the error to [onError] once (if given),
    clears the interval when the count has reached [maxPolls], and does
    not throw, also when [onError] throws. *)
Theorem poll_tick_on_rejection h l seen pc pol s u linkUuid
    (options : MonitorOptions U) e s' :
  getPayments linkUuid 50%Z 1%Z s = (inl e, s') ->
  poll_tick getPayments linkUuid options
    (mkState h (mkMonitor seen pc pol s u) l) =
    (Returned tt,
     mkState h
       (mkMonitor seen (pc + 1)
          (still_polling pol (maxPolls options) (pc + 1))
          s' (reported (onError options) e u))
       l).
Proof. apply tick_on_rejection. Qed.

Lemma tick_counts linkUuid (options : MonitorOptions U)
    (st : State (Monitor S U)) :
  let st' := snd (poll_tick getPayments linkUuid options st) in
  fst (poll_tick getPayments linkUuid options st) = Returned tt /\
  pollCount (world st') = (pollCount (world st) + 1)%Z /\
  polling (world st') =
    still_polling (polling (world st)) (maxPolls options)
      (pollCount (world st) + 1) /\
  seenPayments (world st) ⊆ seenPayments (world st').
Proof.
  destruct st as [h [seen pc pol s u] l]. cbn [world pollCount polling
    seenPayments].
  destruct (getPayments linkUuid 50%Z 1%Z s) as [[e|response] s'] eqn:Hget.
  - rewrite (tick_on_rejection h l seen pc pol s u linkUuid options e s' Hget).
    now cbn.
  - rewrite (tick_on_response h l seen pc pol s u linkUuid options response s'
               Hget).
    cbn. repeat split.
    destruct (filter_unseen_spec (default [] (payments response)) seen)
      as (-> & _).
    set_solver.
Qed.

(** X16. Whatever the service answers and whatever the callbacks do, a
    firing never throws; it counts one poll, never forgets a seen id and
    never sets the interval again once it is cleared. *)
Theorem poll_tick_never_throws linkUuid (options : MonitorOptions U)
    (st : State (Monitor S U)) :
  let st' := snd (poll_tick getPayments linkUuid options st) in
  fst (poll_tick getPayments linkUuid options st) = Returned tt /\
  pollCount (world st') = (pollCount (world st) + 1)%Z /\
  seenPayments (world st) ⊆ seenPayments (world st') /\
  (polling (world st) = false -> polling (world st') = false).
Proof.
  destruct (tick_counts linkUuid options st) as (Hret & Hpc & Hpol & Hseen).
  cbv zeta. repeat split; try assumption.
  intros Hoff. rewrite Hpol, Hoff. reflexivity.
Qed.

Lemma fire_counts linkUuid (options : MonitorOptions U) n :
  forall st : State (Monitor S U),
    polling (world st) =
      negb (default 120%Z (maxPolls options) <=? pollCount (world st))%Z \/
    (polling (world st) = true) ->
    let st' := fire (poll_tick getPayments linkUuid options) (Datatypes.S n) st in
    pollCount (world st') = (pollCount (world st) + Z.of_nat (Datatypes.S n))%Z /\
    polling (world st') =
      (polling (world st) &&
       negb (default 120%Z (maxPolls options) <=? pollCount (world st'))%Z).
Proof.
  induction n as [|n IH]; intros st Hinv.
  - cbn [fire].
    destruct (tick_counts linkUuid options st) as (_ & Hpc & Hpol & _).
    cbv zeta. rewrite Hpc, Hpol. unfold still_polling. split; [lia|reflexivity].
  - cbn [fire].
    destruct (tick_counts linkUuid options st) as (_ & Hpc & Hpol & _).
    set (st1 := snd (poll_tick getPayments linkUuid options st)) in *.
    assert (Hinv1 : polling (world st1) =
              negb (default 120%Z (maxPolls options) <=? pollCount (world st1))%Z
              \/ polling (world st1) = true).
    { rewrite Hpol, Hpc. unfold still_polling.
      destruct Hinv as [-> | ->].
      - left.
        destruct (Z.leb_spec (default 120%Z (maxPolls options))
                    (pollCount (world st)));
          destruct (Z.leb_spec (default 120%Z (maxPolls options))
                      (pollCount (world st) + 1)); cbn; try reflexivity; lia.
      - left. reflexivity. }
    destruct (IH st1 Hinv1) as [Hpc' Hpol']. cbv zeta in *.
    change (fire (poll_tick getPayments linkUuid options) (Datatypes.S n) st1)
      with (fire (poll_tick getPayments linkUuid options) n
              (snd (poll_tick getPayments linkUuid options st1))) in *.
    cbn [fire] in Hpc', Hpol'. fold st1.
    split; [rewrite Hpc', Hpc; lia|].
    rewrite Hpol', Hpol, Hpc'. unfold still_polling. rewrite Hpc.
    destruct (polling (world st)); [|reflexivity]. cbn [andb].
    destruct (Z.leb_spec (default 120%Z (maxPolls options))
                (pollCount (world st) + 1));
      destruct (Z.leb_spec (default 120%Z (maxPolls options))
                  (pollCount (world st) + 1 + Z.of_nat (Datatypes.S n)));
      cbn; try reflexivity; lia.
Qed.

(** X17. When the firings do not overlap, the monitor started by
    [monitorLinkPayments] has made [k] polls after [k] firings, and after
    at least one firing the interval is still set exactly when [k] is
    below [maxPolls] (120 when not given): the first poll is always made,
    also with [maxPolls] zero or negative, and the interval is cleared by
    the firing that brings the count to [maxPolls]. *)
Theorem monitor_stops_at_limit linkUuid (options : MonitorOptions U)
    h l (s : S) (u : U) n :
  let st' := fire (poll_tick getPayments linkUuid options) (Datatypes.S n)
               (mkState h (monitor_started s u) l) in
  pollCount (world st') = Z.of_nat (Datatypes.S n) /\
  polling (world st') =
    negb (default 120%Z (maxPolls options) <=? Z.of_nat (Datatypes.S n))%Z.
Proof.
  destruct (fire_counts linkUuid options n (mkState h (monitor_started s u) l)
              (or_intror eq_refl)) as [Hpc Hpol].
  cbv zeta in *. cbn [world monitor_started pollCount polling] in *.
  rewrite Hpol, Hpc. split; [lia|]. cbn [andb]. reflexivity.
Qed.

End MonitorTicks.

Lemma notified_recording throws ps : forall u,
  notified (Some (recording throws)) ps u = u ++ ps.
Proof.
  induction ps as [|p rest IH]; intros u; cbn; [now rewrite app_nil_r|].
  cbn in IH. rewrite IH. now rewrite <- app_assoc.
Qed.

Lemma notified_app {U} (found : option (Callback Payment U)) l1 l2 u :
  notified found (l1 ++ l2) u = notified found l2 (notified found l1 u).
Proof. destruct found as [f|]; [apply fold_left_app | reflexivity]. Qed.

(** What [n] firings leave: [onPaymentFound] has been awaited for what the
    filter hands over across the responses of these polls, in order, and
    the set of seen ids is the set that leaves. *)
Lemma fire_deliveries {T U}
    (getPayments : string -> Z -> Z -> T -> (JsThrown + PaymentsResponse) * T)
    linkUuid interval limit (found : option (Callback Payment U)) oops h l n :
  forall seen pc pol (s : T) (u : U),
    let options :=
      mkMonitorOptions interval limit found (option_map silent oops) in
    let after :=
      world (fire (poll_tick getPayments linkUuid options) n
               (mkState h (mkMonitor seen pc pol s u) l)) in
    caller after =
      notified found
        (fst (deliveries seen (polled getPayments linkUuid n s))) u /\
    seenPayments after =
      snd (deliveries seen (polled getPayments linkUuid n s)).
Proof.
  induction n as [|n IH]; intros seen pc pol s u options after;
    subst after; cbn [fire polled].
  - cbn. now destruct found.
  - destruct (getPayments linkUuid 50%Z 1%Z s) as [[e|response] s'] eqn:Hget.
    + rewrite (tick_on_rejection getPayments h l seen pc pol s u linkUuid
                 options e s' Hget). cbn [snd].
      destruct (IH seen (pc + 1)%Z
                  (still_polling pol (maxPolls options) (pc + 1)) s'
                  (reported (onError options) e u)) as [Hc Hs].
      fold options in Hc, Hs. rewrite Hc, Hs.
      cbn [deliveries filter_unseen].
      destruct (deliveries seen (polled getPayments linkUuid n s'))
        as [more seen2].
      cbn [fst snd app]. split; [|reflexivity].
      f_equal. unfold options. cbn [onError]. now destruct oops.
    + rewrite (tick_on_response getPayments h l seen pc pol s u linkUuid
                 options response s' Hget). cbn [snd].
      destruct (IH (snd (filter_unseen seen (default [] (payments response))))
                  (pc + 1)%Z
                  (still_polling pol (maxPolls options) (pc + 1)) s'
                  (notified (onPaymentFound options)
                     (fst (filter_unseen seen
                             (default [] (payments response)))) u))
        as [Hc Hs].
      fold options in Hc, Hs. rewrite Hc, Hs.
      cbn [deliveries].
      destruct (filter_unseen seen (default [] (payments response)))
        as [new seen1].
      cbn [fst snd].
      destruct (deliveries seen1 (polled getPayments linkUuid n s'))
        as [more seen2].
      cbn [fst snd]. split; [|reflexivity].
      unfold options. cbn [onPaymentFound]. now rewrite notified_app.
Qed.

(** X13. Over any number of firings that do not overlap, whatever the
    service answers and whether or not the callbacks throw, what the timer
    code hands to [onPaymentFound] is what one filter over the
    concatenated responses of these polls gives: a callback that records
    its arguments ends with exactly that list, and any callback has been
    awaited for each payment of it in turn.  So across all polls the
    payments handed over have pairwise different ids, every id that occurs
    in some response is handed over, and the set of seen ids ends as the
    set of all ids received. *)
Theorem deliveries_once_across_polls {T U}
    (getPayments : string -> Z -> Z -> T -> (JsThrown + PaymentsResponse) * T)
    linkUuid interval limit (found : option (Callback Payment U)) throws oops
    h l n (s : T) (u : U) :
  let handed :=
    fst (filter_unseen ∅ (concat (polled getPayments linkUuid n s))) in
  let after :=
    world (fire (poll_tick getPayments linkUuid
                   (mkMonitorOptions interval limit found
                      (option_map silent oops))) n
             (mkState h (monitor_started s u) l)) in
  let recorded :=
    caller (world (fire (poll_tick getPayments linkUuid
                           (mkMonitorOptions interval limit
                              (Some (recording throws))
                              (option_map silent oops))) n
                     (mkState h (monitor_started s []) l))) in
  recorded = handed /\
  caller after = notified found handed u /\
  seenPayments after =
    list_to_set (payment_uuid <$> concat (polled getPayments linkUuid n s)) /\
  NoDup (payment_uuid <$> recorded) /\
  (forall ps id, ps ∈ polled getPayments linkUuid n s ->
     id ∈ payment_uuid <$> ps -> id ∈ payment_uuid <$> recorded).
Proof.
  intros handed after recorded. subst handed after recorded.
  unfold monitor_started.
  destruct (fire_deliveries getPayments linkUuid interval limit found oops
              h l n ∅ 0%Z true s u) as [Hc Hs].
  destruct (fire_deliveries getPayments linkUuid interval limit
              (Some (recording throws)) oops h l n ∅ 0%Z true s [])
    as [Hr _].
  rewrite notified_recording in Hr. cbn [app] in Hr.
  rewrite deliveries_concat in Hc, Hs, Hr.
  destruct (filter_unseen_spec (concat (polled getPayments linkUuid n s)) ∅)
    as (Hset & Hnd & _ & _ & Hall).
  rewrite Hc, Hs, Hr. split; [reflexivity|]. split; [reflexivity|].
  split; [rewrite Hset; set_solver|]. split; [assumption|].
  intros ps id Hps Hid. apply Hall; [|set_solver].
  apply list_elem_of_fmap in Hid as (p & -> & Hp).
  apply list_elem_of_fmap. exists p. split; [reflexivity|].
  apply list_elem_of_In, in_concat. exists ps.
  split; now apply list_elem_of_In.
Qed.

(** ** Failing first and failing last *)

Section FirstAndLast.

Context {W : Type}.
Variable remote : Remote W.

Implicit Types (st : State W) (c : Configuration) (o : CreateLinkOptions).

(** X18. When the link-creation call itself is rejected, [createLink]
    throws the wrapped error and has made that one call only: nothing was
    created and no sub-resource or read-back call is attempted. *)
Theorem createLink_creation_rejected st this options c o e w1 :
  ready (heap st) this options c o ->
  remote_postLinks remote c (stripped o) (world st) = (inl e, w1) ->
  createLink remote this options st =
    (Threw (new_Error (failure_prefix +:+ message_or_unknown e)),
     mkState (heap st ++ [ObjOptions (stripped o)]) w1
       (calls st ++ [mkCall c (PostLinks (stripped o)) false])).
Proof.
  intros Hr Hpost. unfold createLink, try_catch, createLink_body.
  unfold bind at 1. rewrite (step1_eq remote st this options c o Hr).
  now rewrite (invoke_rejected c _ _ (mkState _ (world st) (calls st))
                 e w1 Hpost).
Qed.

(** X19. [createLink] can throw after everything has been created: when a
    run that throws has made the read-back call, that call is the one
    rejected, and before it the creation call and every supplied toll,
    resource and action call were made and resolved; the error carries the
    message of what the service rejected the read-back with in the state
    those calls had left it in. *)
Theorem createLink_readback_rejected
    st this options c o created u w1 e log :
  ready (heap st) this options c o ->
  remote_postLinks remote c (stripped o) (world st) = (inr created, w1) ->
  uuid created = Some u ->
  nonempty u ->
  fst (createLink remote this options st) = Threw e ->
  calls (snd (createLink remote this options st)) = calls st ++ log ->
  In (GetLinksByUuidOrAlias u) (map call_request log) ->
  exists e0 w,
    log = map (fun rq => mkCall c rq true)
            (PostLinks (stripped o) :: sub_resource_requests o u) ++
          [mkCall c (GetLinksByUuidOrAlias u) false] /\
    served remote c (world st)
      (map (fun rq => mkCall c rq true)
         (PostLinks (stripped o) :: sub_resource_requests o u)) w /\
    rejection remote c (GetLinksByUuidOrAlias u) w = Some e0 /\
    e = new_Error (failure_prefix +:+ message_or_unknown e0).
Proof.
  intros Hr Hpost Hu Hne.
  destruct (createLink_exact remote st this options c o created u w1
              Hr Hpost Hu Hne) as (r & w2 & new & Hp & ->).
  destruct Hp as (Hs & (k & Hk & Hreq) & Hc & Hsv & Hret & Hthr).
  destruct r as [[]|e0|]; [| |congruence].
  - destruct (Hret tt eq_refl) as (Hall & Hfull & _).
    destruct (remote_getLink remote c u w2) as [[e0|l] w3] eqn:Hget;
      cbn [fst snd calls]; intros He Hlog Hin; [|discriminate].
    injection He as <-. apply app_inv_head in Hlog. subst log.
    cbn [map]. rewrite <- (resolved_calls_determined c _ new Hall Hc Hfull).
    exists e0, w2. split; [reflexivity|].
    split; [cbn; now rewrite Hpost|].
    split; [cbn; now rewrite Hget | reflexivity].
  - cbn [fst snd calls]. intros He Hlog Hin.
    apply app_inv_head in Hlog. subst log.
    cbn [map] in Hin. destruct Hin as [Hin | Hin]; [discriminate|].
    destruct (sub_resource_not_readback o u u).
    rewrite <- (take_drop k (sub_resource_requests o u)).
    apply in_or_app. left. now rewrite <- Hreq.
Qed.

End FirstAndLast.

(** ** The further facts at work on the test doubles *)

Lemma mock_uuid_nonempty : nonempty "u-1".
Proof. intros H. discriminate H. Defined.

Lemma createLink_actions_sequential_witness :
  exists new,
    calls (snd (createLink (Mock.server Mock.bad_trigger_rejected) 4 5
                  (Mock.start Mock.two_actions))) = new /\
    stops_at_rejection new /\
    action_bodies new = [Mock.hook "bad"].
Proof.
  destruct (createLink_actions_sequential
              (Mock.server Mock.bad_trigger_rejected)
              (Mock.start Mock.two_actions) 4 5 Mock.production
              Mock.two_actions (mock_ready Mock.two_actions))
    as (new & Hcalls & _ & _ & Hstop & Hfirst & _).
  exists new. split; [exact Hcalls|]. split; [exact Hstop|].
  assert (Hnew : new =
            [mkCall Mock.production (PostLinks (stripped Mock.two_actions)) true;
             mkCall Mock.production
               (PostLinksByLinkUuidActions "u-1" (Mock.hook "bad")) false])
    by (symmetry; exact Hcalls).
  refine (proj2 (Hfirst
            (mkCall Mock.production
               (PostLinksByLinkUuidActions "u-1" (Mock.hook "bad")) false)
            [] _ eq_refl)).
  rewrite Hnew. reflexivity.
Defined.

Lemma createLink_call_sequence_witness :
  exists rest,
    calls (snd (createLink (Mock.server Mock.toll_rejected) 4 5
                  (Mock.start Mock.with_toll))) =
      [] ++ mkCall Mock.production (PostLinks (stripped Mock.with_toll)) true
              :: rest /\
    (exists k, map call_request rest =
               take k (follow_up_requests Mock.with_toll "u-1")) /\
    Forall (fun call => call_configuration call = Mock.production) rest /\
    stops_at_rejection rest /\
    served (Mock.server Mock.toll_rejected) Mock.production
      [Mock.link_of Mock.toll_rejected Mock.with_toll] rest
      (world (snd (createLink (Mock.server Mock.toll_rejected) 4 5
                     (Mock.start Mock.with_toll)))).
Proof.
  exact (createLink_call_sequence (Mock.server Mock.toll_rejected)
           (Mock.start Mock.with_toll) 4 5 Mock.production Mock.with_toll
           (Mock.link_of Mock.toll_rejected Mock.with_toll) "u-1"
           [Mock.link_of Mock.toll_rejected Mock.with_toll]
           (mock_ready Mock.with_toll) eq_refl eq_refl mock_uuid_nonempty).
Defined.

Lemma createLink_returns_iff_all_resolved_witness :
  exists rest,
    calls (snd (createLink (Mock.server Mock.all_ok) 4 5
                  (Mock.start Mock.with_toll))) =
      [] ++ mkCall Mock.production (PostLinks (stripped Mock.with_toll)) true
              :: rest /\
    ((exists l, fst (createLink (Mock.server Mock.all_ok) 4 5
                       (Mock.start Mock.with_toll)) = Returned l) <->
     all_resolved rest) /\
    (forall l, fst (createLink (Mock.server Mock.all_ok) 4 5
                      (Mock.start Mock.with_toll)) = Returned l ->
       map call_request rest = follow_up_requests Mock.with_toll "u-1" /\
       exists done w,
         rest = done ++
                [mkCall Mock.production (GetLinksByUuidOrAlias "u-1") true] /\
         served (Mock.server Mock.all_ok) Mock.production
           [Mock.link_of Mock.all_ok Mock.with_toll] done w /\
         remote_getLink (Mock.server Mock.all_ok) Mock.production "u-1" w =
           (inr l,
            world (snd (createLink (Mock.server Mock.all_ok) 4 5
                          (Mock.start Mock.with_toll))))).
Proof.
  exact (createLink_returns_iff_all_resolved (Mock.server Mock.all_ok)
           (Mock.start Mock.with_toll) 4 5 Mock.production Mock.with_toll
           (Mock.link_of Mock.all_ok Mock.with_toll) "u-1"
           [Mock.link_of Mock.all_ok Mock.with_toll]
           (mock_ready Mock.with_toll) eq_refl eq_refl mock_uuid_nonempty).
Defined.

Lemma createLink_error_provenance_witness :
  exists done last w e0,
    calls (snd (createLink (Mock.server Mock.bad_trigger_rejected) 4 5
                  (Mock.start Mock.two_actions))) =
      [] ++ mkCall Mock.production (PostLinks (stripped Mock.two_actions)) true
              :: done ++ [last] /\
    all_resolved done /\
    call_resolved last = false /\
    In (call_request last) (follow_up_requests Mock.two_actions "u-1") /\
    served (Mock.server Mock.bad_trigger_rejected) Mock.production
      [Mock.link_of Mock.bad_trigger_rejected Mock.two_actions] done w /\
    rejection (Mock.server Mock.bad_trigger_rejected) Mock.production
      (call_request last) w = Some e0 /\
    ErrorObject "Failed to create link: Response returned an error code"
      None None =
      new_Error (failure_prefix +:+ message_or_unknown e0).
Proof.
  exact (createLink_error_provenance (Mock.server Mock.bad_trigger_rejected)
           (Mock.start Mock.two_actions) 4 5 Mock.production Mock.two_actions
           (Mock.link_of Mock.bad_trigger_rejected Mock.two_actions) "u-1"
           [Mock.link_of Mock.bad_trigger_rejected Mock.two_actions]
           (ErrorObject
              "Failed to create link: Response returned an error code"
              None None)
           (mock_ready Mock.two_actions) eq_refl eq_refl mock_uuid_nonempty
           eq_refl).
Defined.

Lemma createLink_succeeds_when_accepted_witness :
  exists l w',
    createLink (Mock.server Mock.all_ok) 4 5 (Mock.start Mock.with_toll) =
      (Returned l,
       mkState (Mock.heap_with Mock.with_toll ++
                [ObjOptions (stripped Mock.with_toll)]) w'
         [mkCall Mock.production (PostLinks (stripped Mock.with_toll)) true;
          mkCall Mock.production
            (PostLinksByLinkUuidTolls "u-1" Mock.usdc) true;
          mkCall Mock.production
            (PostLinksByLinkUuidResources "u-1" Mock.welcome) true;
          mkCall Mock.production
            (PostLinksByLinkUuidActions "u-1" (Mock.hook "payment_success"))
            true;
          mkCall Mock.production (GetLinksByUuidOrAlias "u-1") true]) /\
    w' = [Mock.link_of Mock.all_ok Mock.with_toll] /\
    exists w w2,
      remote_getLink (Mock.server Mock.all_ok) Mock.production "u-1" w =
        (inr l, w2).
Proof.
  refine (createLink_succeeds_when_accepted (Mock.server Mock.all_ok)
            (Mock.start Mock.with_toll) 4 5 Mock.production Mock.with_toll
            (Mock.link_of Mock.all_ok Mock.with_toll) "u-1"
            [Mock.link_of Mock.all_ok Mock.with_toll]
            (fun w => w = [Mock.link_of Mock.all_ok Mock.with_toll])
            (mock_ready Mock.with_toll) eq_refl eq_refl mock_uuid_nonempty
            eq_refl _).
  intros rq w Hin ->. cbn in Hin.
  destruct Hin as [<- | [<- | [<- | [<- | []]]]]; split; reflexivity.
Defined.

Lemma updateBasePath_rebinds_witness :
  exists st',
    updateBasePath 4 "https://api.example.com" (Mock.start Mock.just_name) =
      (Returned tt, st') /\
    current_configuration (heap st') 4 =
      Some (mkConfiguration "https://api.example.com" "t1") /\
    logs_call_with
      (LinksApi_getLinksByUuidOrAlias (Mock.server Mock.all_ok) 2 "u-1") st'
      Mock.production.
Proof.
  destruct (updateBasePath_rebinds (Mock.server Mock.all_ok)
              (Mock.start Mock.just_name) 4 Mock.facade Mock.production
              2 0 Mock.production "https://api.example.com"
              eq_refl eq_refl eq_refl eq_refl)
    as (st' & g' & Hrun & _ & _ & _ & Hcur & _ & _ & _ & _ & _ & Hold).
  exists st'. repeat split; try assumption. apply Hold.
Defined.

Lemma update_keeps_old_configuration_witness :
  exists st' fresh,
    getConfiguration 4 (Mock.start Mock.just_name) =
      (Returned 0, Mock.start Mock.just_name) /\
    apply_update 4 (UpdateApiToken "new-token") (Mock.start Mock.just_name) =
      (Returned tt, st') /\
    getConfiguration 4 st' = (Returned fresh, st') /\
    fresh <> 0 /\
    heap st' !! fresh =
      Some (ObjConfiguration
              (mkConfiguration "https://api.gatepay.cloud" "new-token")) /\
    heap st' !! 0 = Some (ObjConfiguration Mock.production) /\
    (forall p x, p <> 4 -> heap (Mock.start Mock.just_name) !! p = Some x ->
                 heap st' !! p = Some x) /\
    length (heap st') = 6 + 4.
Proof.
  exact (update_keeps_old_configuration (Mock.start Mock.just_name) 4
           Mock.facade Mock.production (UpdateApiToken "new-token")
           eq_refl eq_refl).
Defined.

Lemma update_then_createLink_witness :
  exists new,
    calls (snd ((do! apply_update 4 (UpdateApiToken "t2") in
                 createLink (Mock.server Mock.all_ok) 4 5)
                  (Mock.start Mock.with_toll))) = [] ++ new /\
    new <> [] /\
    Forall (fun call =>
              call_configuration call =
                mkConfiguration "https://api.gatepay.cloud" "t2") new.
Proof.
  exact (update_then_createLink (Mock.server Mock.all_ok)
           (Mock.start Mock.with_toll) 4 5 Mock.facade Mock.production
           Mock.with_toll (UpdateApiToken "t2") eq_refl eq_refl eq_refl).
Defined.

Lemma poll_tick_on_response_witness :
  poll_tick MonitorMock.payments_service "u-1" MonitorMock.two_polls
    (mkState [] (monitor_started 0 []) []) =
    (Returned tt,
     mkState []
       (mkMonitor
          (snd (filter_unseen ∅
                  [MonitorMock.pay "p1"; MonitorMock.pay "p2";
                   MonitorMock.pay "p1"]))
          1 true 1 ["p1"; "p2"])
       []).
Proof.
  unfold monitor_started.
  rewrite (poll_tick_on_response MonitorMock.payments_service [] [] ∅ 0%Z
             true 0 [] "u-1" MonitorMock.two_polls
             (mkPaymentsResponse
                (Some [MonitorMock.pay "p1"; MonitorMock.pay "p2";
                       MonitorMock.pay "p1"])) 1 eq_refl).
  reflexivity.
Defined.

Lemma poll_tick_on_rejection_witness :
  poll_tick MonitorMock.payments_service "u-1" MonitorMock.two_polls
    (mkState [] (mkMonitor {["p1"; "p2"]} 1 true 1 ["p1"; "p2"]) []) =
    (Returned tt,
     mkState []
       (mkMonitor {["p1"; "p2"]} 2 false 2
          ["p1"; "p2"; "error: Response returned an error code"])
       []).
Proof.
  exact (poll_tick_on_rejection MonitorMock.payments_service [] []
           {["p1"; "p2"]} 1%Z true 1 ["p1"; "p2"] "u-1" MonitorMock.two_polls
           Mock.server_error 2 eq_refl).
Defined.

Lemma createLink_creation_rejected_witness :
  createLink (Mock.server Mock.creation_rejected) 4 5
    (Mock.start Mock.with_toll) =
    (Threw (ErrorObject
              "Failed to create link: Response returned an error code"
              None None),
     mkState (Mock.heap_with Mock.with_toll ++
              [ObjOptions (stripped Mock.with_toll)]) []
       [mkCall Mock.production (PostLinks (stripped Mock.with_toll)) false]).
Proof.
  exact (createLink_creation_rejected (Mock.server Mock.creation_rejected)
           (Mock.start Mock.with_toll) 4 5 Mock.production Mock.with_toll
           Mock.forbidden [] (mock_ready Mock.with_toll) eq_refl).
Defined.

Lemma createLink_readback_rejected_witness :
  exists e0 w,
    [mkCall Mock.production (PostLinks (stripped Mock.with_toll)) true;
     mkCall Mock.production (PostLinksByLinkUuidTolls "u-1" Mock.usdc) true;
     mkCall Mock.production
       (PostLinksByLinkUuidResources "u-1" Mock.welcome) true;
     mkCall Mock.production
       (PostLinksByLinkUuidActions "u-1" (Mock.hook "payment_success")) true;
     mkCall Mock.production (GetLinksByUuidOrAlias "u-1") false] =
      map (fun rq => mkCall Mock.production rq true)
        (PostLinks (stripped Mock.with_toll)
           :: sub_resource_requests Mock.with_toll "u-1") ++
      [mkCall Mock.production (GetLinksByUuidOrAlias "u-1") false] /\
    served EdgeMock.readback_unavailable Mock.production []
      (map (fun rq => mkCall Mock.production rq true)
         (PostLinks (stripped Mock.with_toll)
            :: sub_resource_requests Mock.with_toll "u-1")) w /\
    rejection EdgeMock.readback_unavailable Mock.production
      (GetLinksByUuidOrAlias "u-1") w = Some e0 /\
    ErrorObject "Failed to create link: Service Unavailable" None None =
      new_Error (failure_prefix +:+ message_or_unknown e0).
Proof.
  refine (createLink_readback_rejected EdgeMock.readback_unavailable
            (Mock.start Mock.with_toll) 4 5 Mock.production Mock.with_toll
            (Mock.link_of Mock.all_ok Mock.with_toll) "u-1"
            [Mock.link_of Mock.all_ok Mock.with_toll]
            (ErrorObject "Failed to create link: Service Unavailable"
               None None)
            _ (mock_ready Mock.with_toll) eq_refl eq_refl mock_uuid_nonempty
            eq_refl eq_refl _).
  cbn. tauto.
Defined.
